(** * Semantic analyzer: scopes, symbols and declaration checks

    A shallow embedding of [src/SemanticAnalyzer.cpp] and of the driver
    [src/main.cpp].  The analyzer is a C++ class with mutable members that
    signals failure by throwing; here a member function is a function from
    the analyzer's state to an [Outcome] that either returns normally with
    the new state, throws an exception leaving a state behind, or has no
    defined behaviour ([back()] of an empty vector, a cast to the wrong node
    class). *)

From Stdlib Require Import ZArith String List Bool Lia.
From stdpp Require Import base option gmap strings.
Import ListNotations.

Local Open Scope string_scope.

(** ** Data model *)

(** [enum class SymbolType].  [Variable] is a reserved word of Rocq, hence
    the underscore. *)
Module SymbolType.
Inductive t := Variable_ | Constant | Function.
End SymbolType.

(** [enum class TypeKind]. *)
Module TypeKind.
Inductive t := Int | Float | String | Bool | Auto | Unknown.

#[global] Instance kind_eq_dec : EqDecision t.
Proof. solve_decision. Defined.
End TypeKind.

(** [struct TypeInfo]; [width] is a C++ [int]. *)
Record TypeInfo := mkTypeInfo {
  kind : TypeKind.t;
  width : Z;
  is_signed : bool;
  is_mutable : bool
}.

(** [TypeInfo::operator==]: mutability is not compared. *)
Definition TypeInfo_eq (a b : TypeInfo) : bool :=
  bool_decide (kind a = kind b) && (width a =? width b)%Z
  && Bool.eqb (is_signed a) (is_signed b).

(** [struct Symbol]. *)
Record Symbol := mkSymbol {
  name : string;
  symbol_type : SymbolType.t;
  type_info : TypeInfo;
  is_initialized : bool;
  declaration_line : Z
}.

(** What the analyzer can throw: [SemanticError] (a [std::runtime_error]
    with a [line] member), and the two standard exceptions thrown by
    [parse_type] and [exit_scope], which have a message only.  The code has
    no error-kind tag; the kinds of the specification are told apart by the
    throw site, that is by class and message: a duplicate symbol is a
    [SemanticError] "Duplicate ... name '<name>'", a missing initializer a
    [SemanticError] "... declaration requires initializer", a type mismatch
    a [SemanticError] "Type mismatch in ... declaration", an unknown type
    the [runtime_error] "Unknown type: <spelling>", and a scope underflow
    the [logic_error] "Scope stack underflow". *)
Inductive Exception :=
| SemanticError (what : string) (line : Z)
| runtime_error (what : string)
| logic_error (what : string).

(** The [line] member, present on [SemanticError] only. *)
Definition line_of (e : Exception) : option Z :=
  match e with
  | SemanticError _ l => Some l
  | runtime_error _ | logic_error _ => None
  end.

Definition what_of (e : Exception) : string :=
  match e with
  | SemanticError w _ | runtime_error w | logic_error w => w
  end.

(** [catch (const SemanticError&)] of [main]: the handler matches this
    class only. *)
Definition is_SemanticError (e : Exception) : bool :=
  match e with SemanticError _ _ => true | _ => false end.

(** ** The AST, as the analyzer reads it

    The node classes are declared outside [src/]; their fields are the ones
    the analyzer and [main] access. *)

(** Modelled from the spec: [enum class NodeKind] is not under [src/].  The
    first four tags are the [case] labels of [visit]; the others are kinds
    the specification names (parameters, expressions, and the statements it
    lists as unchecked: assignments, conditionals, loops, returns). *)
Module NodeKind.
Inductive t :=
  Function | LetDeclaration | VarDeclaration | ConstDeclaration
  | Parameter_ | Expression | Assignment | Conditional | Loop | Return.

#[global] Instance tag_eq_dec : EqDecision t.
Proof. solve_decision. Defined.

(** The tags that have a [case] in the [switch] of [visit]. *)
Definition handled (k : t) : bool :=
  match k with
  | Function | LetDeclaration | VarDeclaration | ConstDeclaration => true
  | _ => false
  end.
End NodeKind.

(** Modelled from the spec: the expression classes are not under [src/].
    [main] builds an [IntegerLiteralNode]; the other literals and identifier
    references are those of the specification's expression resolver.
    [visit_expression] never inspects its argument. *)
Inductive ExpressionNode :=
| IntegerLiteralNode (value : Z)
| StringLiteralNode (value : string)
| BoolLiteralNode (value : bool)
| IdentifierNode (ident : string).

(** [ParameterNode]: [name], [type], [line]. *)
Record ParameterNode := mkParameter {
  param_name : string;
  param_type : string;
  param_line : Z
}.

(** The fields shared by [LetDeclarationNode], [VarDeclarationNode] and
    [ConstDeclarationNode].  [type_annotation] is tested for null before it
    is handed to [parse_type], and so is [initializer]. *)
Record Declaration := mkDeclaration {
  decl_name : string;
  type_annotation : option string;
  initializer : option ExpressionNode;
  decl_line : Z
}.

(** A [std::shared_ptr<ASTNode>] is an [option ASTNode]: [None] is the null
    pointer.  [OtherNode] stands for an object of any node class that none
    of the four handlers casts to; it carries its [kind] tag. *)
#[warnings="-register-all"]
Inductive ASTNode :=
| FunctionNode (fname : string) (return_type : string)
    (parameters : list ParameterNode) (body : list (option ASTNode))
    (line : Z)
| LetDeclarationNode (d : Declaration)
| VarDeclarationNode (d : Declaration)
| ConstDeclarationNode (d : Declaration)
| OtherNode (tag : NodeKind.t) (line : Z).

(** [node->kind]. *)
Definition node_kind (n : ASTNode) : NodeKind.t :=
  match n with
  | FunctionNode _ _ _ _ _ => NodeKind.Function
  | LetDeclarationNode _ => NodeKind.LetDeclaration
  | VarDeclarationNode _ => NodeKind.VarDeclaration
  | ConstDeclarationNode _ => NodeKind.ConstDeclaration
  | OtherNode k _ => k
  end.

(** ** Analyzer state and outcomes *)

(** The data members of [class SemanticAnalyzer].  [scope_stack] is kept
    with the vector's [back()] (the innermost scope) at the head of the
    list, so [emplace_back] is a cons, [pop_back] drops the head, and the
    reverse iteration of [find_symbol] walks the list from its head. *)
Record SemanticAnalyzer := mkAnalyzer {
  symbol_table : gmap string Symbol;
  scope_stack : list (gmap string Symbol);
  current_return_type : TypeInfo;
  in_function : bool
}.

Definition with_scope_stack (st : list (gmap string Symbol))
    (s : SemanticAnalyzer) : SemanticAnalyzer :=
  {| symbol_table := symbol_table s; scope_stack := st;
     current_return_type := current_return_type s;
     in_function := in_function s |}.

Definition with_in_function (b : bool) (s : SemanticAnalyzer)
    : SemanticAnalyzer :=
  {| symbol_table := symbol_table s; scope_stack := scope_stack s;
     current_return_type := current_return_type s; in_function := b |}.

Definition with_current_return_type (t : TypeInfo) (s : SemanticAnalyzer)
    : SemanticAnalyzer :=
  {| symbol_table := symbol_table s; scope_stack := scope_stack s;
     current_return_type := t; in_function := in_function s |}.

Definition depth (s : SemanticAnalyzer) : nat := length (scope_stack s).

Inductive Outcome (A : Type) :=
| Returns (a : A) (s : SemanticAnalyzer)
| Throws (e : Exception) (s : SemanticAnalyzer)
| Undefined.
Arguments Returns {A} a s.
Arguments Throws {A} e s.
Arguments Undefined {A}.

(** A member function returning [A]. *)
Definition M (A : Type) : Type := SemanticAnalyzer -> Outcome A.

Definition ret {A} (a : A) : M A := fun s => Returns a s.
Definition throw {A} (e : Exception) : M A := fun s => Throws e s.
Definition undefined {A} : M A := fun _ => Undefined.

Definition bind {A B} (m : M A) (k : A -> M B) : M B :=
  fun s =>
    match m s with
    | Returns a s' => k a s'
    | Throws e s' => Throws e s'
    | Undefined => Undefined
    end.

Declare Scope analyzer_scope.
Delimit Scope analyzer_scope with an.
Notation "x <- m ;; k" := (bind m (fun x => k))
  (at level 100, m at next level, right associativity) : analyzer_scope.
Notation "m ;; k" := (bind m (fun _ => k))
  (at level 100, right associativity) : analyzer_scope.
Local Open Scope analyzer_scope.

(** A range-based [for] over a vector, calling [f] on each element. *)
Definition for_each {A} (f : A -> M unit) : list A -> M unit :=
  fix go (l : list A) : M unit :=
    match l with
    | [] => ret tt
    | x :: rest => f x ;; go rest
    end.

(** A function that can only throw or return a value, lifted. *)
Definition lift {A} (r : Exception + A) : M A :=
  match r with
  | inl e => throw e
  | inr a => ret a
  end.

(** ** Type system *)

(** [parse_type]: the chain of sixteen string comparisons, then the throw. *)
Definition parse_type (type_name : string) : Exception + TypeInfo :=
  if String.eqb type_name "i8" then inr (mkTypeInfo TypeKind.Int 8 true false)
  else if String.eqb type_name "u8" then inr (mkTypeInfo TypeKind.Int 8 false false)
  else if String.eqb type_name "i16" then inr (mkTypeInfo TypeKind.Int 16 true false)
  else if String.eqb type_name "u16" then inr (mkTypeInfo TypeKind.Int 16 false false)
  else if String.eqb type_name "i32" then inr (mkTypeInfo TypeKind.Int 32 true false)
  else if String.eqb type_name "u32" then inr (mkTypeInfo TypeKind.Int 32 false false)
  else if String.eqb type_name "i64" then inr (mkTypeInfo TypeKind.Int 64 true false)
  else if String.eqb type_name "u64" then inr (mkTypeInfo TypeKind.Int 64 false false)
  else if String.eqb type_name "i128" then inr (mkTypeInfo TypeKind.Int 128 true false)
  else if String.eqb type_name "u128" then inr (mkTypeInfo TypeKind.Int 128 false false)
  else if String.eqb type_name "f32" then inr (mkTypeInfo TypeKind.Float 32 true false)
  else if String.eqb type_name "f64" then inr (mkTypeInfo TypeKind.Float 64 true false)
  else if String.eqb type_name "str" then inr (mkTypeInfo TypeKind.String 0 false false)
  else if String.eqb type_name "string" then inr (mkTypeInfo TypeKind.String 0 false false)
  else if String.eqb type_name "bool" then inr (mkTypeInfo TypeKind.Bool 0 false false)
  else if String.eqb type_name "auto" then inr (mkTypeInfo TypeKind.Auto 0 false false)
  else inl (runtime_error ("Unknown type: " ++ type_name)).

(** [types_compatible]. *)
Definition types_compatible (expected actual : TypeInfo) : bool :=
  if bool_decide (kind expected = TypeKind.Auto) then true
  else if negb (bool_decide (kind expected = kind actual)) then false
  else if bool_decide (kind expected = TypeKind.Int)
          || bool_decide (kind expected = TypeKind.Float)
       then (width expected =? width actual)%Z
            && Bool.eqb (is_signed expected) (is_signed actual)
       else true.

(** [visit_expression]: the resolver returns the same value for every
    expression. *)
Definition visit_expression (expr : ExpressionNode) : TypeInfo :=
  mkTypeInfo TypeKind.Unknown 0 false false.

(** ** Scope and symbol table manager *)

(** [scope_stack.emplace_back()]. *)
Definition enter_scope : M unit :=
  fun s => Returns tt (with_scope_stack (∅ :: scope_stack s) s).

(** [exit_scope]: the guarded [pop_back]. *)
Definition exit_scope : M unit :=
  fun s =>
    match scope_stack s with
    | [] => Throws (logic_error "Scope stack underflow") s
    | _ :: outer => Returns tt (with_scope_stack outer s)
    end.

(** The loop of [find_symbol] over the scopes, innermost first. *)
Fixpoint find_in (scopes : list (gmap string Symbol)) (x : string)
    : option Symbol :=
  match scopes with
  | [] => None
  | scope :: outer =>
      match scope !! x with
      | Some sym => Some sym
      | None => find_in outer x
      end
  end.

(** [find_symbol]; [None] is the null pointer. *)
Definition find_symbol (x : string) : M (option Symbol) :=
  fun s => Returns (find_in (scope_stack s) x) s.

(** [scope_stack.back().count(x)], as the truth value the callers test.
    [back()] of an empty vector has no defined behaviour. *)
Definition back_count (x : string) : M bool :=
  fun s =>
    match scope_stack s with
    | [] => Undefined
    | scope :: _ => Returns (bool_decide (is_Some (scope !! x))) s
    end.

(** [scope_stack.back()[x] = sym]. *)
Definition back_assign (x : string) (sym : Symbol) : M unit :=
  fun s =>
    match scope_stack s with
    | [] => Undefined
    | scope :: outer =>
        Returns tt (with_scope_stack (<[x := sym]> scope :: outer) s)
    end.

Definition set_in_function (b : bool) : M unit :=
  fun s => Returns tt (with_in_function b s).

Definition set_current_return_type (t : TypeInfo) : M unit :=
  fun s => Returns tt (with_current_return_type t s).

(** ** Declaration handlers *)

Section Handlers.

(** The contents of a [TypeInfo] that was declared and never assigned: a
    local [Symbol sym;] and the member [current_return_type] start out with
    whatever the memory holds.  The handlers are defined for every such
    value; nothing in the analyzer ever reads a field that still holds
    it. *)
Variable indeterminate : TypeInfo.

(** The constructor: an analyzer whose stack holds the global scope. *)
Definition new_analyzer : SemanticAnalyzer :=
  {| symbol_table := ∅; scope_stack := [∅];
     current_return_type := indeterminate; in_function := false |}.

(** [sym.type_info.kind = k] on a [TypeInfo]: the other fields stay. *)
Definition set_kind (k : TypeKind.t) (t : TypeInfo) : TypeInfo :=
  mkTypeInfo k (width t) (is_signed t) (is_mutable t).

(** [sym.type_info.is_mutable = b]. *)
Definition set_mutable (b : bool) (t : TypeInfo) : TypeInfo :=
  mkTypeInfo (kind t) (width t) (is_signed t) b.

(** The annotation step shared by the three declaration handlers. *)
Definition declared_type (annotation : option string) : M TypeInfo :=
  match annotation with
  | Some spelling => lift (parse_type spelling)
  | None => ret (set_kind TypeKind.Auto indeterminate)
  end.

(** The initializer step of [visit_var_decl] and [visit_const_decl], and of
    the initialized branch of [visit_let_decl]: inference for [Auto],
    otherwise the compatibility check. *)
Definition checked_type (mismatch : string) (line : Z)
    (declared : TypeInfo) (expr : ExpressionNode) : M TypeInfo :=
  let init_type := visit_expression expr in
  if bool_decide (kind declared = TypeKind.Auto) then ret init_type
  else if negb (types_compatible declared init_type)
       then throw (SemanticError mismatch line)
       else ret declared.

Definition visit_let_decl (let_decl : Declaration) : M unit :=
  dup <- back_count (decl_name let_decl) ;;
  if (dup : bool) then
    throw (SemanticError
             ("Duplicate variable name '" ++ decl_name let_decl ++ "'")
             (decl_line let_decl))
  else
    declared <- declared_type (type_annotation let_decl) ;;
    match initializer let_decl with
    | Some expr =>
        t <- checked_type "Type mismatch in let declaration"
               (decl_line let_decl) declared expr ;;
        back_assign (decl_name let_decl)
          (mkSymbol (decl_name let_decl) SymbolType.Variable_
                    (set_mutable false t) true (decl_line let_decl))
    | None =>
        back_assign (decl_name let_decl)
          (mkSymbol (decl_name let_decl) SymbolType.Variable_
                    (set_mutable false declared) false (decl_line let_decl))
    end.

Definition visit_var_decl (var_decl : Declaration) : M unit :=
  dup <- back_count (decl_name var_decl) ;;
  if (dup : bool) then
    throw (SemanticError
             ("Duplicate variable name '" ++ decl_name var_decl ++ "'")
             (decl_line var_decl))
  else
    declared <- declared_type (type_annotation var_decl) ;;
    match initializer var_decl with
    | None =>
        throw (SemanticError "var declaration requires initializer"
                             (decl_line var_decl))
    | Some expr =>
        t <- checked_type "Type mismatch in var declaration"
               (decl_line var_decl) declared expr ;;
        back_assign (decl_name var_decl)
          (mkSymbol (decl_name var_decl) SymbolType.Variable_
                    (set_mutable true t) true (decl_line var_decl))
    end.

Definition visit_const_decl (const_decl : Declaration) : M unit :=
  dup <- back_count (decl_name const_decl) ;;
  if (dup : bool) then
    throw (SemanticError
             ("Duplicate constant name '" ++ decl_name const_decl ++ "'")
             (decl_line const_decl))
  else
    declared <- declared_type (type_annotation const_decl) ;;
    match initializer const_decl with
    | None =>
        throw (SemanticError "const declaration requires initializer"
                             (decl_line const_decl))
    | Some expr =>
        t <- checked_type "Type mismatch in const declaration"
               (decl_line const_decl) declared expr ;;
        back_assign (decl_name const_decl)
          (mkSymbol (decl_name const_decl) SymbolType.Constant
                    (set_mutable false t) true (decl_line const_decl))
    end.

(** [visit_parameter]: the type is resolved before the duplicate check. *)
Definition visit_parameter (param : ParameterNode) : M unit :=
  t <- lift (parse_type (param_type param)) ;;
  dup <- back_count (param_name param) ;;
  if (dup : bool) then
    throw (SemanticError
             ("Duplicate parameter name '" ++ param_name param ++ "'")
             (param_line param))
  else
    back_assign (param_name param)
      (mkSymbol (param_name param) SymbolType.Variable_ t true
                (param_line param)).

(** [visit_function], with the dispatcher it calls on each body statement
    as an argument.  Nothing catches between [enter_scope] and
    [exit_scope]. *)
Definition visit_function (visit : option ASTNode -> M unit)
    (fname return_type : string) (parameters : list ParameterNode)
    (body : list (option ASTNode)) (line : Z) : M unit :=
  found <- find_symbol fname ;;
  match found with
  | Some _ =>
      throw (SemanticError ("Duplicate function name '" ++ fname ++ "'") line)
  | None =>
      t <- lift (parse_type return_type) ;;
      back_assign fname (mkSymbol fname SymbolType.Function t true line) ;;
      set_in_function true ;;
      set_current_return_type t ;;
      enter_scope ;;
      for_each visit_parameter parameters ;;
      for_each visit body ;;
      exit_scope ;;
      set_in_function false
  end.

(** The [switch] of [visit] on a non-null node.  A tag that claims one of
    the four handled classes on an object of another class makes the
    [static_pointer_cast] meaningless; any other tag matches no [case] and
    falls out of the [switch]. *)
Fixpoint visit_node (node : ASTNode) : M unit :=
  match node with
  | FunctionNode fname return_type parameters body line =>
      visit_function
        (fun stmt => match stmt with
                     | None => ret tt
                     | Some child => visit_node child
                     end)
        fname return_type parameters body line
  | LetDeclarationNode d => visit_let_decl d
  | VarDeclarationNode d => visit_var_decl d
  | ConstDeclarationNode d => visit_const_decl d
  | OtherNode tag _ =>
      if NodeKind.handled tag then undefined else ret tt
  end.

(** [visit]: the null test, then the [switch]. *)
Definition visit (node : option ASTNode) : M unit :=
  match node with
  | None => ret tt
  | Some n => visit_node n
  end.

(** [analyze]. *)
Definition analyze (root : option ASTNode) : M unit := visit root.

End Handlers.

(** [main] of [src/main.cpp]: the tree it builds, and how the process
    ends.  The [try] block catches [SemanticError] only; any other
    exception leaves [main] uncaught. *)
Definition main_program : ASTNode :=
  FunctionNode "main" "void" []
    [Some (LetDeclarationNode
             (mkDeclaration "a" (Some "i32")
                            (Some (IntegerLiteralNode 42)) 2))]
    1.

(** How the process ends: [return 0] after printing that the analysis
    passed, [return 1] after printing the caught error's line and message,
    or an exception nobody catches. *)
Inductive ProcessEnd :=
| ExitPassed
| ExitSemanticError (line : Z) (what : string)
| Terminated (uncaught : Exception)
| NoDefinedBehaviour.

Definition main (indeterminate : TypeInfo) : ProcessEnd :=
  match analyze indeterminate (Some main_program)
                (new_analyzer indeterminate) with
  | Returns _ _ => ExitPassed
  | Throws (SemanticError what line) _ => ExitSemanticError line what
  | Throws e _ => Terminated e
  | Undefined => NoDefinedBehaviour
  end.

(** ** The catalog of type spellings, as the specification lists it *)

(** The sixteen spellings of the closed catalog, each with the kind, the
    bit width and the signedness its name denotes; the three non-numeric
    kinds have width 0 and are unsigned. *)
Definition type_catalog : list (string * TypeInfo) :=
  [ ("i8", mkTypeInfo TypeKind.Int 8 true false);
    ("u8", mkTypeInfo TypeKind.Int 8 false false);
    ("i16", mkTypeInfo TypeKind.Int 16 true false);
    ("u16", mkTypeInfo TypeKind.Int 16 false false);
    ("i32", mkTypeInfo TypeKind.Int 32 true false);
    ("u32", mkTypeInfo TypeKind.Int 32 false false);
    ("i64", mkTypeInfo TypeKind.Int 64 true false);
    ("u64", mkTypeInfo TypeKind.Int 64 false false);
    ("i128", mkTypeInfo TypeKind.Int 128 true false);
    ("u128", mkTypeInfo TypeKind.Int 128 false false);
    ("f32", mkTypeInfo TypeKind.Float 32 true false);
    ("f64", mkTypeInfo TypeKind.Float 64 true false);
    ("str", mkTypeInfo TypeKind.String 0 false false);
    ("string", mkTypeInfo TypeKind.String 0 false false);
    ("bool", mkTypeInfo TypeKind.Bool 0 false false);
    ("auto", mkTypeInfo TypeKind.Auto 0 false false) ].

Definition catalog_spellings : list string := map fst type_catalog.

(** ** Declarations, uniformly *)

Inductive DeclKind := Let | Var | Const.

Definition decl_node (k : DeclKind) (d : Declaration) : ASTNode :=
  match k with
  | Let => LetDeclarationNode d
  | Var => VarDeclarationNode d
  | Const => ConstDeclarationNode d
  end.

(** The message of the duplicate check of each declaration handler. *)
Definition duplicate_message (k : DeclKind) (x : string) : string :=
  match k with
  | Let | Var => "Duplicate variable name '" ++ x ++ "'"
  | Const => "Duplicate constant name '" ++ x ++ "'"
  end.

(** The message of the compatibility check of each declaration handler. *)
Definition mismatch_message (k : DeclKind) : string :=
  match k with
  | Let => "Type mismatch in let declaration"
  | Var => "Type mismatch in var declaration"
  | Const => "Type mismatch in const declaration"
  end.

(** A tree is well tagged when every node's [kind] names its own class:
    no [OtherNode] claims one of the four handled tags. *)
Fixpoint well_tagged (n : ASTNode) : bool :=
  match n with
  | FunctionNode _ _ _ body _ =>
      forallb (fun stmt => match stmt with
                           | None => true
                           | Some child => well_tagged child
                           end) body
  | OtherNode tag _ => negb (NodeKind.handled tag)
  | _ => true
  end.

Definition well_tagged_root (root : option ASTNode) : bool :=
  match root with
  | None => true
  | Some n => well_tagged n
  end.

Definition is_logic_error (e : Exception) : bool :=
  match e with logic_error _ => true | _ => false end.

(** The two shapes of exception the handlers throw on purpose: a
    [SemanticError], or the [std::runtime_error] of [parse_type]. *)
Definition analyzer_error (e : Exception) : Prop :=
  is_SemanticError e = true
  \/ exists spelling, e = runtime_error ("Unknown type: " ++ spelling).

(** What a call that respects the scope discipline leaves behind when it
    starts in state [s]: the same depth on a normal return, no shallower a
    stack on a throw, and only exceptions of the two shapes above, so never
    the underflow of [exit_scope]. *)
Definition balanced {A} (s : SemanticAnalyzer) (o : Outcome A) : Prop :=
  match o with
  | Returns _ s' => depth s' = depth s
  | Throws e s' => depth s <= depth s' /\ analyzer_error e
  | Undefined => False
  end.

(** ** Definitions used by the statements below *)

(** A value for the never-assigned fields, for the concrete runs below. *)
Definition zeroed : TypeInfo := mkTypeInfo TypeKind.Unknown 0 false false.

(** The symbol a handler registers for an initialized declaration of
    resolved type [t]. *)
Definition initialized_symbol (k : DeclKind) (d : Declaration) (t : TypeInfo)
    : Symbol :=
  mkSymbol (decl_name d)
           (match k with Const => SymbolType.Constant
                       | _ => SymbolType.Variable_ end)
           (set_mutable (match k with Var => true | _ => false end) t)
           true (decl_line d).

(** The steps of a handler that follow the duplicate check (annotation,
    initializer requirement, inference or compatibility), which read the
    node only: the exception thrown, or the symbol about to be stored.
    [visit_declaration_fresh] below shows the handlers compute exactly
    this. *)
Definition declaration_outcome (u : TypeInfo) (k : DeclKind) (d : Declaration)
    : Exception + Symbol :=
  match match type_annotation d with
        | Some spelling => parse_type spelling
        | None => inr (set_kind TypeKind.Auto u)
        end
  with
  | inl e => inl e
  | inr declared =>
      match initializer d with
      | None =>
          match k with
          | Let => inr (mkSymbol (decl_name d) SymbolType.Variable_
                                 (set_mutable false declared) false
                                 (decl_line d))
          | Var => inl (SemanticError "var declaration requires initializer"
                                      (decl_line d))
          | Const => inl (SemanticError
                            "const declaration requires initializer"
                            (decl_line d))
          end
      | Some expr =>
          if bool_decide (kind declared = TypeKind.Auto)
          then inr (initialized_symbol k d (visit_expression expr))
          else if negb (types_compatible declared (visit_expression expr))
               then inl (SemanticError (mismatch_message k) (decl_line d))
               else inr (initialized_symbol k d declared)
      end
  end.

(** The analyzer state in which the parameters of a function are visited:
    the function symbol stored in the current scope, the function flag and
    return type set, and a fresh scope pushed. *)
Definition function_entry_state (fname : string) (t : TypeInfo) (line : Z)
    (cur : gmap string Symbol) (outer : list (gmap string Symbol))
    (s : SemanticAnalyzer) : SemanticAnalyzer :=
  {| symbol_table := symbol_table s;
     scope_stack :=
       ∅ :: <[fname := mkSymbol fname SymbolType.Function t true line]> cur
         :: outer;
     current_return_type := t;
     in_function := true |}.

(** A member function that keeps the stack [balanced] from every state
    with at least the global scope on it. *)
Definition respects {A} (m : M A) : Prop :=
  forall s, 0 < depth s -> balanced s (m s).

(** What [visit_function] leaves behind: balance on a normal return; on a
    throw, either the state it started in (the throw came from the name
    check or from the return type) or a deeper stack. *)
Definition function_post (fname return_type : string) (s : SemanticAnalyzer)
    (o : Outcome unit) : Prop :=
  match o with
  | Returns _ s' => depth s' = depth s
  | Throws e s' =>
      analyzer_error e
      /\ (depth s < depth s'
          \/ (s' = s /\ (is_Some (find_in (scope_stack s) fname)
                        \/ parse_type return_type = inl e)))
  | Undefined => False
  end.

(** A declaration that gives its handler nothing to reject beyond the
    name: its annotation, if any, is a spelling [parse_type] resolves; it
    has an initializer unless it is a [let]; and an annotated type is
    compatible with the type resolved for the initializer. *)
Definition otherwise_valid (k : DeclKind) (d : Declaration) : bool :=
  match type_annotation d, initializer d with
  | None, None => match k with Let => true | _ => false end
  | None, Some _ => true
  | Some spelling, None =>
      match parse_type spelling, k with
      | inr _, Let => true
      | _, _ => false
      end
  | Some spelling, Some expr =>
      match parse_type spelling with
      | inr t => types_compatible t (visit_expression expr)
      | inl _ => false
      end
  end.

Definition i32_type : TypeInfo := mkTypeInfo TypeKind.Int 32 true false.
Definition bool_type : TypeInfo := mkTypeInfo TypeKind.Bool 0 false false.

(** [fn main() -> i32 { let a: i32 = 42; }]: the program of [main] with a
    return type of the catalog. *)
Definition typed_main_program : ASTNode :=
  FunctionNode "main" "i32" []
    [Some (LetDeclarationNode
             (mkDeclaration "a" (Some "i32")
                            (Some (IntegerLiteralNode 42)) 2))]
    1.

(** [fn f() -> i32 { var y; }]. *)
Definition missing_initializer_program : ASTNode :=
  FunctionNode "f" "i32" []
    [Some (VarDeclarationNode (mkDeclaration "y" None None 2))] 1.

(** [fn f() -> bool { fn f() -> bool { } }]. *)
Definition nested_function_program : ASTNode :=
  FunctionNode "f" "bool" [] [Some (FunctionNode "f" "bool" [] [] 2)] 1.

(** [fn f() -> i32 { let x: float; }]. *)
Definition unknown_annotation_program : ASTNode :=
  FunctionNode "f" "i32" []
    [Some (LetDeclarationNode (mkDeclaration "x" (Some "float") None 2))] 1.

(** The analyzer inside the body of [fn f() -> bool], declared at line 1
    of an otherwise empty program. *)
Definition inside_f : SemanticAnalyzer :=
  function_entry_state "f" bool_type 1 ∅ [] (new_analyzer zeroed).

(** The same, after [let x;] at line 2. *)
Definition inside_f_after_x : SemanticAnalyzer :=
  with_scope_stack
    [ {[ "x" := mkSymbol "x" SymbolType.Variable_
                         (mkTypeInfo TypeKind.Auto 0 false false) false 2 ]};
      {[ "f" := mkSymbol "f" SymbolType.Function bool_type true 1 ]} ]
    inside_f.

Definition let_x_again : Declaration := mkDeclaration "x" None None 3.
Definition let_f : Declaration :=
  mkDeclaration "f" None (Some (IntegerLiteralNode 1)) 3.

Definition var_y_bool : Declaration := mkDeclaration "y" (Some "bool") None 3.

(** ** Notions for the further properties *)

(** The symbol [visit_parameter] stores for a parameter of resolved type
    [t]. *)
Definition param_symbol (p : ParameterNode) (t : TypeInfo) : Symbol :=
  mkSymbol (param_name p) SymbolType.Variable_ t true (param_line p).

(** A declaration statement of a function body, as a non-null pointer to
    its node. *)
Definition decl_stmt (kd : DeclKind * Declaration) : option ASTNode :=
  Some (decl_node (fst kd) (snd kd)).

(** How a scope stack [st'] relates to the stack [st] a call started with
    when the call only ever added names to scopes: after a normal return
    the outer scopes are the same and the current scope has kept all its
    bindings; after a throw the same holds below whatever scopes were left
    pushed. *)
Definition scope_kept (st st' : list (gmap string Symbol)) : Prop :=
  exists cur outer cur',
    st = cur :: outer /\ st' = cur' :: outer /\ cur ⊆ cur'.

Definition scope_kept_below (st st' : list (gmap string Symbol)) : Prop :=
  exists cur outer cur' inner,
    st = cur :: outer /\ st' = (inner ++ cur' :: outer)%list /\ cur ⊆ cur'.

Definition framed {A} (s : SemanticAnalyzer) (o : Outcome A) : Prop :=
  match o with
  | Returns _ s' =>
      scope_kept (scope_stack s) (scope_stack s')
      /\ symbol_table s' = symbol_table s
  | Throws _ s' =>
      scope_kept_below (scope_stack s) (scope_stack s')
      /\ symbol_table s' = symbol_table s
  | Undefined => False
  end.

Definition frames {A} (m : M A) : Prop :=
  forall s, scope_stack s <> [] -> framed s (m s).

(** * Properties *)

(** ** The type catalog *)

(** Decide the next comparison of a chain of [String.eqb] tests. *)
Ltac next_spelling x :=
  match goal with
  | |- context [String.eqb x ?lit] =>
      let E := fresh "E" in
      destruct (String.eqb x lit) eqn:E;
      [apply String.eqb_eq in E | apply String.eqb_neq in E]
  end.

(** [parse_type] read as a lookup in [type_catalog]. *)
Lemma parse_type_lookup (type_name : string) :
  parse_type type_name =
  match find (fun entry => String.eqb type_name (fst entry)) type_catalog with
  | Some entry => inr (snd entry)
  | None => inl (runtime_error ("Unknown type: " ++ type_name))
  end.
Proof.
  unfold parse_type, type_catalog. cbn [find fst snd].
  repeat (next_spelling type_name; [reflexivity|]).
  reflexivity.
Qed.

Lemma find_spelling_none (type_name : string) (l : list (string * TypeInfo)) :
  find (fun entry => String.eqb type_name (fst entry)) l = None <->
  ~ In type_name (map fst l).
Proof.
  induction l as [|[sp t] l IH]; cbn [find map In fst].
  - split; [intros _ [] | reflexivity].
  - destruct (String.eqb type_name sp) eqn:E.
    + apply String.eqb_eq in E. split; [discriminate | intros H; destruct H; auto].
    + apply String.eqb_neq in E. rewrite IH. split.
      * intros H [H1 | H1]; [congruence | auto].
      * intros H H1. apply H. right. exact H1.
Qed.

(** C5. [parse_type] succeeds on exactly the sixteen spellings of the
    catalog (i8, u8, i16, u16, i32, u32, i64, u64, i128, u128, f32, f64,
    str, string, bool, auto), returning for each the [TypeInfo] of the
    corresponding kind, width and signedness, and on every other spelling
    it throws the unknown-type error, whose message is "Unknown type: "
    followed by the spelling; "i7", "float" and "void" are among those. *)
Theorem parse_type_closed_catalog (type_name : string) :
  catalog_spellings =
    ["i8"; "u8"; "i16"; "u16"; "i32"; "u32"; "i64"; "u64"; "i128"; "u128";
     "f32"; "f64"; "str"; "string"; "bool"; "auto"]
  /\ (In type_name catalog_spellings <->
      exists t, parse_type type_name = inr t)
  /\ (forall t, In (type_name, t) type_catalog <->
                parse_type type_name = inr t)
  /\ (~ In type_name catalog_spellings <->
      parse_type type_name = inl (runtime_error ("Unknown type: " ++ type_name)))
  /\ parse_type "i7" = inl (runtime_error "Unknown type: i7")
  /\ parse_type "float" = inl (runtime_error "Unknown type: float")
  /\ parse_type "void" = inl (runtime_error "Unknown type: void").
Proof.
  split; [reflexivity|].
  assert (Hunknown : ~ In type_name catalog_spellings <->
            parse_type type_name
            = inl (runtime_error ("Unknown type: " ++ type_name))).
  { rewrite parse_type_lookup. unfold catalog_spellings.
    rewrite <- find_spelling_none.
    destruct (find _ type_catalog); split; congruence. }
  assert (Hentry : forall t, In (type_name, t) type_catalog <->
            parse_type type_name = inr t).
  { intros t. split.
    - intros Hin. unfold type_catalog in Hin. cbn [In] in Hin.
      repeat (destruct Hin as [Hin | Hin];
              [injection Hin as <- <-; reflexivity|]).
      destruct Hin.
    - unfold parse_type, type_catalog.
      repeat (next_spelling type_name;
              [ subst type_name; intros [= <-]; cbn [In];
                repeat (first [left; reflexivity | right]) |]).
      discriminate. }
  split; [|split; [exact Hentry | split; [exact Hunknown | repeat split]]].
  split.
  - intros Hin. destruct (parse_type type_name) as [e | t] eqn:E.
    + exfalso. rewrite parse_type_lookup in E. unfold catalog_spellings in Hin.
      destruct (find _ type_catalog) eqn:F; [discriminate|].
      apply find_spelling_none in F. contradiction.
    + exists t. reflexivity.
  - intros [t Ht]. apply Hentry in Ht.
    unfold catalog_spellings. apply (in_map fst) in Ht. exact Ht.
Qed.

(** ** Sequencing *)

Lemma bind_ext {A B} (m : M A) (k k' : A -> M B) (s : SemanticAnalyzer) :
  (forall a s', k a s' = k' a s') -> bind m k s = bind m k' s.
Proof.
  intros H. unfold bind. destruct (m s); auto.
Qed.

Lemma for_each_nil {A} (f : A -> M unit) : for_each f [] = ret tt.
Proof. reflexivity. Qed.

Lemma for_each_cons {A} (f : A -> M unit) (x : A) (l : list A) :
  for_each f (x :: l) = bind (f x) (fun _ => for_each f l).
Proof. reflexivity. Qed.

Lemma for_each_app {A} (f : A -> M unit) (l1 l2 : list A) (s : SemanticAnalyzer) :
  for_each f (l1 ++ l2) s = bind (for_each f l1) (fun _ => for_each f l2) s.
Proof.
  revert s. induction l1 as [|x l1 IH]; intros s.
  - reflexivity.
  - rewrite <- app_comm_cons, !for_each_cons. unfold bind in *.
    destruct (f x s) as [[] s'| |]; [|reflexivity|reflexivity].
    apply IH.
Qed.

(** A statement the callback returns from without touching the state can
    be dropped from the sequence. *)
Lemma for_each_skip {A} (f : A -> M unit) (x : A) (l1 l2 : list A)
    (s : SemanticAnalyzer) :
  (forall s', f x s' = Returns tt s') ->
  for_each f (l1 ++ x :: l2) s = for_each f (l1 ++ l2) s.
Proof.
  intros Hx. rewrite !for_each_app. apply bind_ext. intros _ s'.
  rewrite for_each_cons. unfold bind. rewrite Hx. reflexivity.
Qed.

(** ** Null nodes and unhandled kinds *)

Section Dispatcher.

Variable u : TypeInfo.

(** C9. [analyze] on a null root, and [visit] on a null statement, return
    normally at once and leave the whole analyzer state (scope stack,
    symbol table, function flag, return type) as it was; a function body
    with a null statement in it is analyzed exactly as the body without
    that statement. *)
Theorem null_node_is_skipped (s : SemanticAnalyzer) :
  analyze u None s = Returns tt s
  /\ visit u None s = Returns tt s
  /\ forall fname return_type parameters before after line,
       visit u (Some (FunctionNode fname return_type parameters
                                   (before ++ None :: after) line)) s
       = visit u (Some (FunctionNode fname return_type parameters
                                     (before ++ after) line)) s.
Proof.
  split; [reflexivity|]. split; [reflexivity|].
  intros fname return_type parameters before after line.
  cbn [visit visit_node]. unfold visit_function.
  apply bind_ext. intros [sym|] s1; [reflexivity|].
  repeat (apply bind_ext; intros ? ?).
  unfold bind at 1 3.
  rewrite for_each_skip by reflexivity. reflexivity.
Qed.

(** C4, as the code has it.  A node whose kind tag is none of [Function],
    [LetDeclaration], [VarDeclaration], [ConstDeclaration] matches no case
    of the dispatcher: the visit returns normally and leaves the analyzer
    state unchanged.  No error is raised for it. *)
Theorem unhandled_kind_is_skipped (n : ASTNode) (s : SemanticAnalyzer) :
  NodeKind.handled (node_kind n) = false ->
  visit u (Some n) s = Returns tt s.
Proof.
  intros H. destruct n; cbn in H; try discriminate.
  cbn [visit visit_node]. rewrite H. reflexivity.
Qed.

End Dispatcher.

Lemma unhandled_kind_is_skipped_witness :
  NodeKind.handled (node_kind (OtherNode NodeKind.Assignment 7)) = false
  /\ visit zeroed (Some (OtherNode NodeKind.Assignment 7)) (new_analyzer zeroed)
     = Returns tt (new_analyzer zeroed).
Proof.
  split; [reflexivity|].
  apply (unhandled_kind_is_skipped zeroed); reflexivity.
Defined.

(** C4 refuted as stated: a [return] statement has an unhandled kind, and
    visiting it raises nothing. *)
Lemma unhandled_kind_raises_nothing :
  NodeKind.handled (node_kind (OtherNode NodeKind.Return 3)) = false
  /\ visit zeroed (Some (OtherNode NodeKind.Return 3)) (new_analyzer zeroed)
     = Returns tt (new_analyzer zeroed)
  /\ ~ exists e s',
         visit zeroed (Some (OtherNode NodeKind.Return 3)) (new_analyzer zeroed)
         = Throws e s'.
Proof.
  split; [reflexivity|]. split; [reflexivity|].
  intros (e & s' & H). discriminate H.
Qed.

(** ** What a declaration handler does after its duplicate check *)

Section Declarations.

Variable u : TypeInfo.

Lemma visit_declaration_duplicate (k : DeclKind) (d : Declaration)
    (s : SemanticAnalyzer) (cur : gmap string Symbol)
    (outer : list (gmap string Symbol)) :
  scope_stack s = cur :: outer ->
  is_Some (cur !! decl_name d) ->
  visit_node u (decl_node k d) s
  = Throws (SemanticError (duplicate_message k (decl_name d)) (decl_line d)) s.
Proof.
  intros Hs Hdup.
  destruct k; cbn [decl_node visit_node duplicate_message];
    unfold visit_let_decl, visit_var_decl, visit_const_decl, bind, back_count;
    rewrite Hs, bool_decide_eq_true_2 by exact Hdup; reflexivity.
Qed.

Lemma visit_declaration_fresh (k : DeclKind) (d : Declaration)
    (s : SemanticAnalyzer) (cur : gmap string Symbol)
    (outer : list (gmap string Symbol)) :
  scope_stack s = cur :: outer ->
  cur !! decl_name d = None ->
  visit_node u (decl_node k d) s
  = match declaration_outcome u k d with
    | inl e => Throws e s
    | inr sym =>
        Returns tt (with_scope_stack (<[decl_name d := sym]> cur :: outer) s)
    end.
Proof.
  intros Hs Hfresh.
  assert (Hnot : ~ is_Some (cur !! decl_name d))
    by (rewrite Hfresh; apply is_Some_None).
  unfold declaration_outcome.
  destruct k; cbn [decl_node visit_node];
    unfold visit_let_decl, visit_var_decl, visit_const_decl, bind at 1,
           back_count;
    rewrite Hs, bool_decide_eq_false_2 by exact Hnot;
    unfold bind at 1, declared_type;
    (destruct (type_annotation d) as [spelling|];
       [destruct (parse_type spelling) as [e|declared]; cbn [lift]|];
       unfold ret, throw; try reflexivity);
    (destruct (initializer d) as [expr|];
       [unfold bind, checked_type;
        repeat (case_bool_decide; cbn [negb]);
        try destruct (types_compatible _ _); cbn [negb];
        unfold ret, throw, back_assign; rewrite ?Hs; try reflexivity;
        try contradiction
       |unfold throw, back_assign; rewrite ?Hs; reflexivity]).
Qed.

End Declarations.

(** ** The function handler, step by step *)

Lemma visit_function_unfold (visit : option ASTNode -> M unit)
    (fname return_type : string) (parameters : list ParameterNode)
    (body : list (option ASTNode)) (line : Z) (s : SemanticAnalyzer) :
  visit_function visit fname return_type parameters body line s
  = match find_in (scope_stack s) fname with
    | Some _ =>
        Throws (SemanticError ("Duplicate function name '" ++ fname ++ "'")
                              line) s
    | None =>
        match parse_type return_type with
        | inl e => Throws e s
        | inr t =>
            match scope_stack s with
            | [] => Undefined
            | cur :: outer =>
                match for_each visit_parameter parameters
                        (function_entry_state fname t line cur outer s) with
                | Returns _ s1 =>
                    match for_each visit body s1 with
                    | Returns _ s2 =>
                        match exit_scope s2 with
                        | Returns _ s3 =>
                            Returns tt (with_in_function false s3)
                        | Throws e s' => Throws e s'
                        | Undefined => Undefined
                        end
                    | Throws e s' => Throws e s'
                    | Undefined => Undefined
                    end
                | Throws e s' => Throws e s'
                | Undefined => Undefined
                end
            end
        end
    end.
Proof.
  unfold visit_function, bind at 1, find_symbol.
  destruct (find_in (scope_stack s) fname); [reflexivity|].
  unfold bind at 1. destruct (parse_type return_type) as [e|t]; [reflexivity|].
  cbn [lift]. unfold ret, bind at 1, back_assign.
  destruct (scope_stack s) as [|cur outer]; [reflexivity|].
  unfold bind, set_in_function, set_current_return_type, enter_scope.
  cbn [scope_stack with_scope_stack with_in_function with_current_return_type
       symbol_table current_return_type in_function].
  reflexivity.
Qed.

Lemma parse_type_error (spelling : string) (e : Exception) :
  parse_type spelling = inl e ->
  e = runtime_error ("Unknown type: " ++ spelling).
Proof.
  rewrite parse_type_lookup. destruct (find _ type_catalog); congruence.
Qed.

Lemma parse_type_kind (spelling : string) (t : TypeInfo) :
  parse_type spelling = inr t -> kind t <> TypeKind.Unknown.
Proof.
  unfold parse_type.
  repeat (next_spelling spelling; [intros [= <-]; discriminate|]).
  discriminate.
Qed.

(** ** Scope discipline *)

Lemma analyzer_error_semantic (what : string) (line : Z) :
  analyzer_error (SemanticError what line).
Proof. left. reflexivity. Qed.

Lemma analyzer_error_unknown_type (spelling : string) :
  analyzer_error (runtime_error ("Unknown type: " ++ spelling)).
Proof. right. exists spelling. reflexivity. Qed.

Lemma analyzer_error_not_logic (e : Exception) :
  analyzer_error e -> is_logic_error e = false.
Proof.
  intros [H | [spelling ->]]; [|reflexivity].
  destruct e; [reflexivity | discriminate H | discriminate H].
Qed.

(** An exception of the analyzer has a line unless it is the unknown-type
    error. *)
Lemma analyzer_error_line (e : Exception) :
  analyzer_error e ->
  (line_of e = None <->
   exists spelling, e = runtime_error ("Unknown type: " ++ spelling)).
Proof.
  intros [H | [spelling ->]].
  - destruct e; try discriminate H. cbn. split; [discriminate|].
    intros [spelling Hs]. discriminate Hs.
  - split; [eauto | reflexivity].
Qed.

Lemma respects_bind {A B} (m : M A) (k : A -> M B) :
  respects m -> (forall a, respects (k a)) -> respects (bind m k).
Proof.
  intros Hm Hk s Hs. specialize (Hm s Hs). unfold bind.
  destruct (m s) as [a s'|e s'|]; cbn in *; [|exact Hm|exact Hm].
  assert (Hs' : 0 < depth s') by lia.
  specialize (Hk a s' Hs').
  destruct (k a s') as [b s''|e s''|]; cbn in *; [lia | split; [lia|tauto] | exact Hk].
Qed.

Lemma respects_for_each {A} (f : A -> M unit) (l : list A) :
  Forall (fun x => respects (f x)) l -> respects (for_each f l).
Proof.
  induction 1 as [|x l Hx _ IH].
  - intros s _. reflexivity.
  - rewrite for_each_cons. apply respects_bind; [exact Hx | intros _; exact IH].
Qed.

Lemma respects_visit_parameter (param : ParameterNode) :
  respects (visit_parameter param).
Proof.
  intros s Hs. unfold visit_parameter, bind, back_count, back_assign.
  destruct (parse_type (param_type param)) as [e|t] eqn:E; cbn [lift throw ret].
  - apply parse_type_error in E. subst e. cbn.
    split; [lia | apply analyzer_error_unknown_type].
  - unfold depth in Hs.
    destruct (scope_stack s) as [|cur outer] eqn:Es; [cbn in Hs; lia|].
    case_bool_decide; unfold balanced, throw, depth; cbn; rewrite Es;
      [split; [lia | apply analyzer_error_semantic] | reflexivity].
Qed.

Lemma respects_visit_declaration (u : TypeInfo) (k : DeclKind) (d : Declaration) :
  respects (visit_node u (decl_node k d)).
Proof.
  intros s Hs. unfold depth in Hs.
  destruct (scope_stack s) as [|cur outer] eqn:Es; [cbn in Hs; lia|].
  destruct (cur !! decl_name d) as [old|] eqn:Ec.
  - rewrite (visit_declaration_duplicate u k d s cur outer Es) by (rewrite Ec; eauto).
    cbn. split; [lia | apply analyzer_error_semantic].
  - rewrite (visit_declaration_fresh u k d s cur outer Es Ec).
    destruct (declaration_outcome u k d) as [e|sym] eqn:Eo.
    + cbn. split; [lia|].
      unfold declaration_outcome in Eo.
      destruct (type_annotation d) as [spelling|].
      * destruct (parse_type spelling) as [e'|t] eqn:Ep.
        -- injection Eo as <-. apply parse_type_error in Ep. subst e'.
           apply analyzer_error_unknown_type.
        -- destruct (initializer d); [repeat case_match|destruct k];
             simplify_eq; apply analyzer_error_semantic.
      * destruct (initializer d); [repeat case_match|destruct k];
             simplify_eq; apply analyzer_error_semantic.
    + unfold balanced, depth. cbn. rewrite Es. reflexivity.
Qed.

Lemma function_post_balanced (fname return_type : string)
    (s : SemanticAnalyzer) (o : Outcome unit) :
  function_post fname return_type s o -> balanced s o.
Proof.
  destruct o as [a s'|e s'|]; cbn; [tauto| |tauto].
  intros [Hl [Hlt | [-> _]]]; split; auto; lia.
Qed.

Lemma visit_function_post (visit : option ASTNode -> M unit)
    (fname return_type : string) (parameters : list ParameterNode)
    (body : list (option ASTNode)) (line : Z) :
  Forall (fun stmt => respects (visit stmt)) body ->
  forall s, 0 < depth s ->
    function_post fname return_type s
      (visit_function visit fname return_type parameters body line s).
Proof.
  intros Hbody s Hs. rewrite visit_function_unfold.
  destruct (find_in (scope_stack s) fname) as [old|] eqn:Ef.
  { cbn. split; [apply analyzer_error_semantic|]. right. rewrite Ef. eauto. }
  destruct (parse_type return_type) as [e|t] eqn:Ep.
  { cbn. split; [|right; auto].
    apply parse_type_error in Ep. subst e. apply analyzer_error_unknown_type. }
  unfold depth in Hs.
  destruct (scope_stack s) as [|cur outer] eqn:Es; [cbn in Hs; lia|].
  set (s0 := function_entry_state fname t line cur outer s).
  assert (Hd0 : depth s0 = S (depth s)) by (unfold depth; rewrite Es; reflexivity).
  assert (Hparams : respects (for_each visit_parameter parameters)).
  { apply respects_for_each, Forall_forall. intros p _.
    apply respects_visit_parameter. }
  specialize (Hparams s0 ltac:(lia)).
  destruct (for_each visit_parameter parameters s0) as [[] s1|e s1|];
    cbn in Hparams; [| |contradiction].
  2:{ cbn. split; [tauto|]. left. unfold depth in *. rewrite Es. cbn [length]. lia. }
  pose proof (respects_for_each visit body Hbody s1 ltac:(lia)) as Hstmts.
  destruct (for_each visit body s1) as [[] s2|e s2|];
    cbn in Hstmts; [| |contradiction].
  2:{ cbn. split; [tauto|]. left. unfold depth in *. rewrite Es. cbn [length]. lia. }
  unfold exit_scope. unfold depth in *.
  destruct (scope_stack s2) as [|inner rest] eqn:E2; [cbn in Hstmts; lia|].
  cbn in *. unfold depth. lia.
Qed.

(** Induction over a tree, with the statements of a function body as
    subtrees. *)
Lemma ASTNode_tree_ind (P : ASTNode -> Prop) :
  (forall fname return_type parameters body line,
     Forall (fun stmt => match stmt with
                         | None => True
                         | Some child => P child
                         end) body ->
     P (FunctionNode fname return_type parameters body line)) ->
  (forall d, P (LetDeclarationNode d)) ->
  (forall d, P (VarDeclarationNode d)) ->
  (forall d, P (ConstDeclarationNode d)) ->
  (forall tag line, P (OtherNode tag line)) ->
  forall n, P n.
Proof.
  intros Hf Hl Hv Hc Ho.
  fix IH 1. intros [fname return_type parameters body line|d|d|d|tag line];
    [|apply Hl|apply Hv|apply Hc|apply Ho].
  apply Hf. induction body as [|[child|] body IHbody]; constructor; auto.
Qed.

Lemma respects_visit_node (u : TypeInfo) (n : ASTNode) :
  well_tagged n = true -> respects (visit_node u n).
Proof.
  induction n as [fname return_type parameters body line IH|d|d|d|tag line]
    using ASTNode_tree_ind; intros Hw.
  - intros s Hs. cbn [visit_node].
    apply (function_post_balanced fname return_type).
    apply visit_function_post; [|exact Hs].
    cbn [well_tagged] in Hw. rewrite forallb_forall in Hw.
    rewrite Forall_forall in IH. apply Forall_forall. intros [child|] Hin.
    + apply (IH _ Hin). apply (Hw (Some child)), list_elem_of_In, Hin.
    + intros s' _. reflexivity.
  - apply (respects_visit_declaration u Let d).
  - apply (respects_visit_declaration u Var d).
  - apply (respects_visit_declaration u Const d).
  - cbn in Hw. apply negb_true_iff in Hw. intros s _.
    cbn [visit_node]. rewrite Hw. reflexivity.
Qed.

Lemma analyze_throws_analyzer_error (u : TypeInfo) (root : option ASTNode)
    (s s' : SemanticAnalyzer) (e : Exception) :
  well_tagged_root root = true ->
  0 < depth s ->
  analyze u root s = Throws e s' ->
  analyzer_error e.
Proof.
  intros Hw Hs H. destruct root as [n|]; [|discriminate H].
  pose proof (respects_visit_node u n Hw s Hs) as Hb.
  cbn [analyze visit] in H. rewrite H in Hb. apply Hb.
Qed.

(** C3, as the code has it.  For a well-tagged tree and an analyzer whose
    stack holds at least the global scope, [analyze] has a defined
    outcome; when it returns normally the scope stack is as deep as before
    the call; when it throws, the stack is never shallower than before and
    the exception is never the underflow of [exit_scope]; and when the
    throw comes out of a function after its name check and return type
    have passed (that is, from a parameter or a body statement), the scope
    pushed for the body has not been popped: the stack is strictly deeper
    than before the call. *)
Theorem scope_depth_after_analyze (u : TypeInfo) (root : option ASTNode)
    (s : SemanticAnalyzer) :
  well_tagged_root root = true ->
  0 < depth s ->
  match analyze u root s with
  | Returns _ s' => depth s' = depth s
  | Throws e s' =>
      depth s <= depth s'
      /\ is_logic_error e = false
      /\ forall fname return_type parameters body line t,
           root = Some (FunctionNode fname return_type parameters body line) ->
           find_in (scope_stack s) fname = None ->
           parse_type return_type = inr t ->
           depth s < depth s'
  | Undefined => False
  end.
Proof.
  intros Hw Hs. destruct root as [n|]; [|reflexivity].
  cbn [analyze visit well_tagged_root] in *.
  pose proof (respects_visit_node u n Hw s Hs) as Hb.
  destruct (visit_node u n s) as [[] s'|e s'|] eqn:E; cbn in Hb; [exact Hb| |exact Hb].
  destruct Hb as [Hle Herr]. split; [exact Hle|].
  split; [apply analyzer_error_not_logic, Herr|].
  intros fname return_type parameters body line t [= ->] Hfresh Hp.
  cbn [visit_node well_tagged] in *.
  assert (Hpost : function_post fname return_type s (Throws e s')).
  { rewrite <- E. apply visit_function_post; [|exact Hs].
    rewrite forallb_forall in Hw. apply Forall_forall. intros [child|] Hin.
    - apply respects_visit_node. apply (Hw (Some child)), list_elem_of_In, Hin.
    - intros s0 _. reflexivity. }
  cbn in Hpost. destruct Hpost as [_ [Hlt | [_ [Hsome | Hbad]]]].
  - exact Hlt.
  - rewrite Hfresh in Hsome. destruct Hsome as [? ?]. discriminate.
  - congruence.
Qed.

Lemma parse_type_known (spelling : string) :
  In spelling catalog_spellings -> exists t, parse_type spelling = inr t.
Proof.
  intros Hin. rewrite parse_type_lookup.
  destruct (find _ type_catalog) as [entry|] eqn:F; [eauto|].
  apply find_spelling_none in F. contradiction.
Qed.

(** ** Declarations: duplicates, shadowing, initializers *)

Section Shadowing.

Variable u : TypeInfo.

Lemma otherwise_valid_outcome (k : DeclKind) (d : Declaration) :
  otherwise_valid k d = true ->
  exists sym, declaration_outcome u k d = inr sym
              /\ name sym = decl_name d
              /\ declaration_line sym = decl_line d
              /\ symbol_type sym <> SymbolType.Function
              /\ is_initialized sym
                 = match initializer d with Some _ => true | None => false end.
Proof.
  unfold otherwise_valid, declaration_outcome.
  destruct (type_annotation d) as [spelling|];
    [destruct (parse_type spelling) as [e|t]|];
    destruct (initializer d) as [expr|]; try discriminate.
  - intros ->. cbn [negb].
    case_bool_decide; eexists; (split; [reflexivity|]);
      destruct k; cbn; repeat split; discriminate.
  - destruct k; try discriminate. intros _. eexists. split; [reflexivity|].
    cbn. repeat split; discriminate.
  - intros _. cbn. eexists. split; [reflexivity|].
    destruct k; cbn; repeat split; discriminate.
  - destruct k; try discriminate. intros _. eexists. split; [reflexivity|].
    cbn. repeat split; discriminate.
Qed.

Lemma find_in_inserted (x : string) (sym : Symbol) (cur : gmap string Symbol)
    (outer : list (gmap string Symbol)) :
  find_in (<[x := sym]> cur :: outer) x = Some sym.
Proof. cbn [find_in]. rewrite lookup_insert_eq. reflexivity. Qed.

Lemma visit_function_duplicate (fname return_type : string)
    (parameters : list ParameterNode) (body : list (option ASTNode))
    (line : Z) (s : SemanticAnalyzer) :
  is_Some (find_in (scope_stack s) fname) ->
  visit u (Some (FunctionNode fname return_type parameters body line)) s
  = Throws (SemanticError ("Duplicate function name '" ++ fname ++ "'") line) s.
Proof.
  intros [old Hold]. cbn [visit visit_node].
  rewrite visit_function_unfold, Hold. reflexivity.
Qed.

(** C6, as the code has it.  In a state whose current scope is [cur]:
    a [let], [var] or [const] declaration of a name that [cur] already
    binds fails with the duplicate-name error at the declaration's own
    line, and leaves the state as it was; a declaration of a name that
    [cur] does not bind is not affected by bindings of that name in outer
    scopes: if it is otherwise valid it succeeds, its symbol goes into
    [cur], and a lookup of the name then returns that inner symbol
    (innermost scope first); a function declaration, in contrast, fails
    with the duplicate-name error at its line whenever its name is bound
    anywhere in the visible chain, the current scope or an outer one. *)
Theorem duplicate_and_shadowing (k : DeclKind) (d : Declaration)
    (s : SemanticAnalyzer) (cur : gmap string Symbol)
    (outer : list (gmap string Symbol)) :
  scope_stack s = cur :: outer ->
  (is_Some (cur !! decl_name d) ->
     visit u (Some (decl_node k d)) s
     = Throws (SemanticError (duplicate_message k (decl_name d)) (decl_line d)) s)
  /\ (cur !! decl_name d = None -> otherwise_valid k d = true ->
      exists sym,
        visit u (Some (decl_node k d)) s
        = Returns tt (with_scope_stack (<[decl_name d := sym]> cur :: outer) s)
        /\ find_in (<[decl_name d := sym]> cur :: outer) (decl_name d) = Some sym
        /\ name sym = decl_name d
        /\ declaration_line sym = decl_line d)
  /\ (forall fname return_type parameters body line,
        is_Some (find_in (cur :: outer) fname) ->
        visit u (Some (FunctionNode fname return_type parameters body line)) s
        = Throws (SemanticError ("Duplicate function name '" ++ fname ++ "'")
                                line) s).
Proof.
  intros Hs. split; [|split].
  - intros Hdup. apply (visit_declaration_duplicate u k d s cur outer Hs Hdup).
  - intros Hfresh Hvalid.
    destruct (otherwise_valid_outcome k d Hvalid) as (sym & Ho & Hn & Hl & _).
    exists sym. cbn [visit].
    rewrite (visit_declaration_fresh u k d s cur outer Hs Hfresh), Ho.
    split; [reflexivity|]. split; [apply find_in_inserted|]. split; assumption.
  - intros fname return_type parameters body line Hbound.
    apply visit_function_duplicate. rewrite Hs. exact Hbound.
Qed.

(** C10, as the code has it.  A [let], [var] or [const] declaration whose
    name is bound to a function symbol in an outer scope only, and not in
    the current scope, passes the duplicate check; if it is otherwise valid
    (its annotation resolves, it has an initializer unless it is a [let],
    and an annotated type is compatible with the initializer's) it
    succeeds: before it the name resolves to the function, after it the
    name resolves to the new symbol, which is not a function, while the
    outer scopes still hold the function.  The check
    looks at the current scope only, whatever the kind of the outer
    binding; a function declaration of the same name in the same state is
    rejected, because that check walks the whole chain. *)
Theorem variable_shadows_outer_function (k : DeclKind) (d : Declaration)
    (s : SemanticAnalyzer) (cur : gmap string Symbol)
    (outer : list (gmap string Symbol)) (fsym : Symbol) :
  scope_stack s = cur :: outer ->
  cur !! decl_name d = None ->
  find_in outer (decl_name d) = Some fsym ->
  symbol_type fsym = SymbolType.Function ->
  otherwise_valid k d = true ->
  find_in (scope_stack s) (decl_name d) = Some fsym
  /\ (exists sym s',
        visit u (Some (decl_node k d)) s = Returns tt s'
        /\ scope_stack s' = <[decl_name d := sym]> cur :: outer
        /\ find_in (scope_stack s') (decl_name d) = Some sym
        /\ symbol_type sym <> SymbolType.Function
        /\ declaration_line sym = decl_line d)
  /\ (forall return_type parameters body line,
        visit u (Some (FunctionNode (decl_name d) return_type parameters
                                    body line)) s
        = Throws (SemanticError
                    ("Duplicate function name '" ++ decl_name d ++ "'") line) s).
Proof.
  intros Hs Hfresh Hout Hfun Hvalid.
  assert (Hbefore : find_in (scope_stack s) (decl_name d) = Some fsym).
  { rewrite Hs. cbn [find_in]. rewrite Hfresh. exact Hout. }
  split; [exact Hbefore|]. split.
  - destruct (otherwise_valid_outcome k d Hvalid) as (sym & Ho & _ & Hl & Hk & _).
    exists sym. eexists. cbn [visit].
    rewrite (visit_declaration_fresh u k d s cur outer Hs Hfresh), Ho.
    split; [reflexivity|]. cbn [scope_stack with_scope_stack].
    split; [reflexivity|]. split; [apply find_in_inserted|]. split; assumption.
  - intros return_type parameters body line.
    apply visit_function_duplicate. rewrite Hbefore. eauto.
Qed.

(** C7, as the code has it.  For a declaration without an initializer
    whose name the current scope does not bind and whose annotation is
    absent or a spelling of the catalog: as a [var] or a [const] it fails
    with the missing-initializer error at the declaration's line, whichever
    of those annotations it has, and the state stays as it was; as a [let]
    it succeeds and registers a variable symbol with [is_initialized]
    false. *)
Theorem declaration_without_initializer (d : Declaration)
    (s : SemanticAnalyzer) (cur : gmap string Symbol)
    (outer : list (gmap string Symbol)) :
  scope_stack s = cur :: outer ->
  cur !! decl_name d = None ->
  initializer d = None ->
  (forall spelling, type_annotation d = Some spelling ->
                    In spelling catalog_spellings) ->
  visit u (Some (VarDeclarationNode d)) s
  = Throws (SemanticError "var declaration requires initializer"
                          (decl_line d)) s
  /\ visit u (Some (ConstDeclarationNode d)) s
     = Throws (SemanticError "const declaration requires initializer"
                             (decl_line d)) s
  /\ exists sym,
       visit u (Some (LetDeclarationNode d)) s
       = Returns tt (with_scope_stack (<[decl_name d := sym]> cur :: outer) s)
       /\ find_in (<[decl_name d := sym]> cur :: outer) (decl_name d) = Some sym
       /\ is_initialized sym = false
       /\ name sym = decl_name d
       /\ symbol_type sym = SymbolType.Variable_
       /\ declaration_line sym = decl_line d.
Proof.
  intros Hs Hfresh Hinit Hann. cbn [visit].
  assert (Hdeclared : exists declared,
            match type_annotation d with
            | Some spelling => parse_type spelling
            | None => inr (set_kind TypeKind.Auto u)
            end = inr declared).
  { destruct (type_annotation d) as [spelling|]; [|eauto].
    apply parse_type_known, Hann. reflexivity. }
  destruct Hdeclared as [declared Hdeclared].
  change (VarDeclarationNode d) with (decl_node Var d).
  change (ConstDeclarationNode d) with (decl_node Const d).
  change (LetDeclarationNode d) with (decl_node Let d).
  rewrite (visit_declaration_fresh u Var d s cur outer Hs Hfresh).
  rewrite (visit_declaration_fresh u Const d s cur outer Hs Hfresh).
  rewrite (visit_declaration_fresh u Let d s cur outer Hs Hfresh).
  unfold declaration_outcome. rewrite Hdeclared, Hinit.
  split; [reflexivity|]. split; [reflexivity|].
  eexists. split; [reflexivity|]. split; [apply find_in_inserted|].
  cbn. repeat split.
Qed.

End Shadowing.

(** ** Concrete programs *)

Section Runs.

Variable u : TypeInfo.

(** C1, on the code.  [analyze] on the tree that [main] builds for
    [fn main() -> void { let a: i32 = 42; }] does not return: resolving
    the return type spelling "void" throws the unknown-type
    [std::runtime_error] before the body is looked at, the analyzer is left
    in its initial state, and since the exception is not a [SemanticError]
    the handler of [main] does not catch it. *)
Theorem main_program_is_rejected :
  analyze u (Some main_program) (new_analyzer u)
  = Throws (runtime_error "Unknown type: void") (new_analyzer u)
  /\ main u = Terminated (runtime_error "Unknown type: void").
Proof. split; reflexivity. Qed.

(** Whatever the state and the kind of declaration: an annotation of the
    catalog other than "auto", together with any initializer, is a type
    mismatch, because the type resolved for the initializer has kind
    [Unknown]. *)
Lemma annotated_initializer_is_rejected (k : DeclKind) (d : Declaration)
    (s : SemanticAnalyzer) (cur : gmap string Symbol)
    (outer : list (gmap string Symbol)) (spelling : string) (t : TypeInfo)
    (expr : ExpressionNode) :
  scope_stack s = cur :: outer ->
  cur !! decl_name d = None ->
  type_annotation d = Some spelling ->
  parse_type spelling = inr t ->
  kind t <> TypeKind.Auto ->
  initializer d = Some expr ->
  visit u (Some (decl_node k d)) s
  = Throws (SemanticError (mismatch_message k) (decl_line d)) s.
Proof.
  intros Hs Hfresh Ha Hp Hk Hi. cbn [visit].
  rewrite (visit_declaration_fresh u k d s cur outer Hs Hfresh).
  unfold declaration_outcome. rewrite Ha, Hp, Hi.
  rewrite bool_decide_eq_false_2 by exact Hk.
  pose proof (parse_type_kind spelling t Hp) as Hunk.
  unfold types_compatible, visit_expression.
  rewrite bool_decide_eq_false_2 by exact Hk.
  cbn [kind]. rewrite (bool_decide_eq_false_2 _ Hunk). reflexivity.
Qed.

(** C2, on the code.  [fn main() -> i32 { let a: i32 = 42; }] has no
    redeclaration, no unknown type, no missing initializer, and declares an
    [i32] initialized with an integer literal; [analyze] throws the type
    mismatch of the [let] at line 2, with the function's scope still
    pushed. *)
Theorem well_typed_program_is_rejected :
  analyze u (Some typed_main_program) (new_analyzer u)
  = Throws (SemanticError "Type mismatch in let declaration" 2)
           (function_entry_state "main" i32_type 1 ∅ [] (new_analyzer u)).
Proof. reflexivity. Qed.

(** C8, on the code.  [analyze] on [fn f() -> i32 { let x: float; }]
    throws the unknown-type error, which is a plain [std::runtime_error]:
    it has a message and no line, and it is not a [SemanticError].  The
    same holds for every spelling [parse_type] rejects, and the underflow
    error of [exit_scope] has no line either.  Among the exceptions
    [analyze] throws on a well-tagged tree, the unknown-type error is the
    only one without a line. *)
Theorem unknown_type_error_has_no_line :
  (exists e s',
     analyze u (Some unknown_annotation_program) (new_analyzer u) = Throws e s'
     /\ what_of e = "Unknown type: float"
     /\ line_of e = None
     /\ is_SemanticError e = false)
  /\ (forall spelling e, parse_type spelling = inl e -> line_of e = None)
  /\ (forall s, scope_stack s = [] ->
        exists e, exit_scope s = Throws e s /\ line_of e = None)
  /\ (forall root s e s',
        well_tagged_root root = true -> 0 < depth s ->
        analyze u root s = Throws e s' ->
        (line_of e = None <->
         exists spelling, e = runtime_error ("Unknown type: " ++ spelling))).
Proof.
  split; [|split; [|split]].
  - eexists _, _. split; [reflexivity|]. repeat split.
  - intros spelling e H. apply parse_type_error in H. subst e. reflexivity.
  - intros s Hs. unfold exit_scope. rewrite Hs. eexists. split; reflexivity.
  - intros root s e s' Hw Hs H. apply analyzer_error_line.
    apply (analyze_throws_analyzer_error u root s s' e Hw Hs H).
Qed.

End Runs.

(** ** Concrete instances *)

Lemma scope_depth_after_analyze_witness :
  well_tagged_root (Some missing_initializer_program) = true
  /\ 0 < depth (new_analyzer zeroed)
  /\ match analyze zeroed (Some missing_initializer_program)
                   (new_analyzer zeroed) with
     | Returns _ s' => depth s' = depth (new_analyzer zeroed)
     | Throws e s' =>
         depth (new_analyzer zeroed) <= depth s'
         /\ is_logic_error e = false
         /\ forall fname return_type parameters body line t,
              Some missing_initializer_program
              = Some (FunctionNode fname return_type parameters body line) ->
              find_in (scope_stack (new_analyzer zeroed)) fname = None ->
              parse_type return_type = inr t ->
              depth (new_analyzer zeroed) < depth s'
     | Undefined => False
     end.
Proof.
  split; [reflexivity|]. split; [cbn; lia|].
  apply (scope_depth_after_analyze zeroed (Some missing_initializer_program)
           (new_analyzer zeroed)); [reflexivity | cbn; lia].
Defined.

(** C3 refuted as stated: in [fn f() -> i32 { var y; }] the body statement
    fails, and the error leaves [analyze] with the function's scope still
    on the stack: depth 2 after the call, depth 1 before it. *)
Lemma failing_statement_leaves_scope_pushed :
  analyze zeroed (Some missing_initializer_program) (new_analyzer zeroed)
  = Throws (SemanticError "var declaration requires initializer" 2)
           (function_entry_state "f" i32_type 1 ∅ [] (new_analyzer zeroed))
  /\ depth (new_analyzer zeroed) = 1
  /\ depth (function_entry_state "f" i32_type 1 ∅ [] (new_analyzer zeroed)) = 2.
Proof. repeat split. Qed.

Lemma duplicate_and_shadowing_witness :
  scope_stack inside_f_after_x
  = [ {[ "x" := mkSymbol "x" SymbolType.Variable_
                         (mkTypeInfo TypeKind.Auto 0 false false) false 2 ]};
      {[ "f" := mkSymbol "f" SymbolType.Function bool_type true 1 ]} ]
  /\ visit zeroed (Some (decl_node Let let_x_again)) inside_f_after_x
     = Throws (SemanticError "Duplicate variable name 'x'" 3) inside_f_after_x
  /\ (exists sym,
        visit zeroed (Some (decl_node Const let_f)) inside_f_after_x
        = Returns tt
            (with_scope_stack
               [ <["f" := sym]>
                   {[ "x" := mkSymbol "x" SymbolType.Variable_
                               (mkTypeInfo TypeKind.Auto 0 false false)
                               false 2 ]};
                 {[ "f" := mkSymbol "f" SymbolType.Function bool_type true 1 ]} ]
               inside_f_after_x)
        /\ declaration_line sym = 3%Z)
  /\ visit zeroed (Some (FunctionNode "x" "bool" [] [] 3)) inside_f_after_x
     = Throws (SemanticError "Duplicate function name 'x'" 3) inside_f_after_x.
Proof.
  split; [reflexivity|]. split; [|split].
  - apply (proj1 (duplicate_and_shadowing zeroed Let let_x_again
                    inside_f_after_x _ _ eq_refl)).
    eexists. vm_compute. reflexivity.
  - destruct (proj1 (proj2 (duplicate_and_shadowing zeroed Const let_f
                              inside_f_after_x _ _ eq_refl))
                eq_refl eq_refl)
      as (sym & Hv & _ & _ & Hl).
    exists sym. split; [exact Hv | exact Hl].
  - apply (proj2 (proj2 (duplicate_and_shadowing zeroed Let let_x_again
                           inside_f_after_x _ _ eq_refl))).
    eexists. vm_compute. reflexivity.
Defined.

(** C6 refuted as stated: in [fn f() -> bool { fn f() -> bool { } }] the
    second declaration of [f] sits in the body scope, strictly inside the
    global scope that holds the first, and it is rejected as a duplicate
    at its line. *)
Lemma inner_function_declaration_is_rejected :
  analyze zeroed (Some nested_function_program) (new_analyzer zeroed)
  = Throws (SemanticError "Duplicate function name 'f'" 2) inside_f
  /\ scope_stack inside_f
     = [ ∅; {[ "f" := mkSymbol "f" SymbolType.Function bool_type true 1 ]} ].
Proof. split; reflexivity. Qed.

Lemma variable_shadows_outer_function_witness :
  find_in (scope_stack inside_f) "f"
  = Some (mkSymbol "f" SymbolType.Function bool_type true 1)
  /\ (exists sym s',
        visit zeroed (Some (decl_node Var let_f)) inside_f = Returns tt s'
        /\ scope_stack s'
           = [ <["f" := sym]> ∅;
               {[ "f" := mkSymbol "f" SymbolType.Function bool_type true 1 ]} ]
        /\ find_in (scope_stack s') "f" = Some sym
        /\ symbol_type sym <> SymbolType.Function
        /\ declaration_line sym = 3%Z)
  /\ (forall return_type parameters body line,
        visit zeroed (Some (FunctionNode "f" return_type parameters body line))
              inside_f
        = Throws (SemanticError "Duplicate function name 'f'" line) inside_f).
Proof.
  apply (variable_shadows_outer_function zeroed Var let_f inside_f ∅
           [ {[ "f" := mkSymbol "f" SymbolType.Function bool_type true 1 ]} ]
           (mkSymbol "f" SymbolType.Function bool_type true 1)).
  - reflexivity.
  - reflexivity.
  - reflexivity.
  - reflexivity.
  - reflexivity.
Defined.

(** C10 refuted as stated: inside [fn f() -> bool], where [f] is bound to
    the function in the outer scope only, the declaration [var f;] does
    not succeed.  The duplicate check lets it through, and the initializer
    requirement then rejects it; the state, and what [f] resolves to, stay
    as they were. *)
Lemma shadowing_declaration_can_still_fail :
  scope_stack inside_f
  = [ ∅; {[ "f" := mkSymbol "f" SymbolType.Function bool_type true 1 ]} ]
  /\ find_in (scope_stack inside_f) "f"
     = Some (mkSymbol "f" SymbolType.Function bool_type true 1)
  /\ visit zeroed (Some (VarDeclarationNode (mkDeclaration "f" None None 2)))
           inside_f
     = Throws (SemanticError "var declaration requires initializer" 2)
              inside_f
  /\ analyze zeroed
       (Some (FunctionNode "f" "bool" []
                [Some (VarDeclarationNode (mkDeclaration "f" None None 2))] 1))
       (new_analyzer zeroed)
     = Throws (SemanticError "var declaration requires initializer" 2)
              inside_f.
Proof. repeat split. Qed.

Lemma declaration_without_initializer_witness :
  visit zeroed (Some (VarDeclarationNode var_y_bool)) inside_f_after_x
  = Throws (SemanticError "var declaration requires initializer" 3)
           inside_f_after_x
  /\ visit zeroed (Some (ConstDeclarationNode var_y_bool)) inside_f_after_x
     = Throws (SemanticError "const declaration requires initializer" 3)
              inside_f_after_x
  /\ exists sym,
       visit zeroed (Some (LetDeclarationNode var_y_bool)) inside_f_after_x
       = Returns tt
           (with_scope_stack
              [ <["y" := sym]>
                  {[ "x" := mkSymbol "x" SymbolType.Variable_
                              (mkTypeInfo TypeKind.Auto 0 false false)
                              false 2 ]};
                {[ "f" := mkSymbol "f" SymbolType.Function bool_type true 1 ]} ]
              inside_f_after_x)
       /\ is_initialized sym = false.
Proof.
  destruct (declaration_without_initializer zeroed var_y_bool
              inside_f_after_x _ _ eq_refl) as (Hvar & Hconst & sym & Hlet & _ & Hi & _).
  - reflexivity.
  - reflexivity.
  - intros spelling [= <-]. vm_compute. tauto.
  - split; [exact Hvar|]. split; [exact Hconst|].
    exists sym. split; [exact Hlet | exact Hi].
Defined.

(** C7 refuted as stated: [var x: i7;] has no initializer, and what it
    fails with is the unknown-type error, not the missing initializer;
    [let x: i7;] has no initializer and does not succeed. *)
Lemma unknown_annotation_precedes_missing_initializer :
  initializer (mkDeclaration "x" (Some "i7") None 1) = None
  /\ visit zeroed
       (Some (VarDeclarationNode (mkDeclaration "x" (Some "i7") None 1)))
       (new_analyzer zeroed)
     = Throws (runtime_error "Unknown type: i7") (new_analyzer zeroed)
  /\ visit zeroed
       (Some (LetDeclarationNode (mkDeclaration "x" (Some "i7") None 1)))
       (new_analyzer zeroed)
     = Throws (runtime_error "Unknown type: i7") (new_analyzer zeroed).
Proof. repeat split. Qed.


(** The two states used above are the ones the analyzer is in while it
    walks [fn f() -> bool { let x; ... }]: the function handler reaches
    [inside_f] with no parameters to register, and [let x;] at line 2 takes
    it to [inside_f_after_x]. *)
Example inside_f_is_reached :
  visit_function (visit zeroed) "f" "bool" [] [] 1 (new_analyzer zeroed)
  = Returns tt
      (with_in_function false
         (with_scope_stack
            [ {[ "f" := mkSymbol "f" SymbolType.Function bool_type true 1 ]} ]
            inside_f))
  /\ visit zeroed (Some (LetDeclarationNode (mkDeclaration "x" None None 2)))
           inside_f
     = Returns tt inside_f_after_x.
Proof. split; reflexivity. Qed.

(** [fn f() -> bool { let f = 1; }] is accepted: inside the body the
    variable hides the function. *)
Example function_name_reused_for_variable :
  exists s',
    analyze zeroed
      (Some (FunctionNode "f" "bool" []
               [Some (LetDeclarationNode
                        (mkDeclaration "f" None (Some (IntegerLiteralNode 1)) 2))]
               1))
      (new_analyzer zeroed)
    = Returns tt s'
    /\ depth s' = 1.
Proof. eexists. split; reflexivity. Qed.

(** [fn f() -> i32 { let x; let x; }] is rejected at the second [x]. *)
Example duplicate_in_one_scope :
  exists s',
    analyze zeroed
      (Some (FunctionNode "f" "i32" []
               [Some (LetDeclarationNode (mkDeclaration "x" None None 2));
                Some (LetDeclarationNode (mkDeclaration "x" None None 3))]
               1))
      (new_analyzer zeroed)
    = Throws (SemanticError "Duplicate variable name 'x'" 3) s'.
Proof. eexists. reflexivity. Qed.

(** * Further properties of the analyzer *)

(** ** The compatibility relation and [operator==] *)

Lemma TypeInfo_eq_fields (a b : TypeInfo) :
  TypeInfo_eq a b = true <->
  kind a = kind b /\ width a = width b /\ is_signed a = is_signed b.
Proof.
  unfold TypeInfo_eq. rewrite !andb_true_iff, bool_decide_eq_true, Z.eqb_eq.
  rewrite Bool.eqb_true_iff. tauto.
Qed.

(** [TypeInfo::operator==] is an equivalence relation, and it does not see
    the mutability flag: two types that differ only in [is_mutable] are
    equal, so a [var] and a [let] of the same type compare equal. *)
Theorem TypeInfo_eq_equivalence :
  (forall a, TypeInfo_eq a a = true)
  /\ (forall a b, TypeInfo_eq a b = TypeInfo_eq b a)
  /\ (forall a b c, TypeInfo_eq a b = true -> TypeInfo_eq b c = true ->
                    TypeInfo_eq a c = true)
  /\ (forall a b m1 m2,
        TypeInfo_eq (set_mutable m1 a) (set_mutable m2 b) = TypeInfo_eq a b).
Proof.
  split; [|split; [|split]].
  - intros a. apply TypeInfo_eq_fields. auto.
  - intros a b. apply eq_true_iff_eq. rewrite !TypeInfo_eq_fields.
    intuition congruence.
  - intros a b c. rewrite !TypeInfo_eq_fields. intuition congruence.
  - intros a b m1 m2. reflexivity.
Qed.

Lemma types_compatible_spec (expected actual : TypeInfo) :
  types_compatible expected actual = true <->
  kind expected = TypeKind.Auto
  \/ (kind expected = kind actual
      /\ (kind expected = TypeKind.Int \/ kind expected = TypeKind.Float ->
          width expected = width actual
          /\ is_signed expected = is_signed actual)).
Proof.
  unfold types_compatible.
  destruct expected as [ke we se me], actual as [ka wa sa ma]; cbn [kind width is_signed].
  repeat case_bool_decide; cbn [negb orb];
    rewrite ?andb_true_iff, ?Z.eqb_eq, ?Bool.eqb_true_iff;
    intuition (try congruence).
Qed.

(** [types_compatible] is reflexive and transitive and blind to the
    mutability flag, but it is not symmetric: an expected [Auto] accepts
    every actual type, while an actual [Auto] is accepted by an expected
    [Auto] only. *)
Theorem types_compatible_preorder :
  (forall t, types_compatible t t = true)
  /\ (forall a b c, types_compatible a b = true -> types_compatible b c = true ->
                    types_compatible a c = true)
  /\ (forall a b m1 m2,
        types_compatible (set_mutable m1 a) (set_mutable m2 b)
        = types_compatible a b)
  /\ (forall a b, kind a = TypeKind.Auto -> types_compatible a b = true)
  /\ (forall a b, kind b = TypeKind.Auto -> types_compatible a b = true ->
                  kind a = TypeKind.Auto).
Proof.
  split; [|split; [|split; [|split]]].
  - intros t. apply types_compatible_spec. right. auto.
  - intros a b c. rewrite !types_compatible_spec.
    intros [Ha | (Hab & Hw)]; [auto|].
    intros [Hb | (Hbc & Hw')].
    + left. congruence.
    + right. split; [congruence|]. intros Hk.
      destruct (Hw Hk) as [? ?].
      destruct Hw' as [? ?]; [rewrite <- Hab; exact Hk|].
      split; congruence.
  - intros a b m1 m2. reflexivity.
  - intros a b Ha. apply types_compatible_spec. auto.
  - intros a b Hb. rewrite types_compatible_spec.
    intros [Ha | (Hab & _)]; congruence.
Qed.

(** ** Resolved types *)

(** Run [parse_type] on a spelling that is known to resolve: one goal per
    entry of the chain, with the spelling and the type substituted. *)
Ltac resolve_spelling x H :=
  revert H; unfold parse_type at 1;
  repeat (next_spelling x; [subst x; intros [= <-] | ]);
  [.. | discriminate].

Lemma parse_type_shape (spelling : string) (t : TypeInfo) :
  parse_type spelling = inr t ->
  is_mutable t = false
  /\ kind t <> TypeKind.Unknown
  /\ match kind t with
     | TypeKind.Int => In (width t) [8; 16; 32; 64; 128]%Z
     | TypeKind.Float => In (width t) [32; 64]%Z /\ is_signed t = true
     | _ => width t = 0%Z /\ is_signed t = false
     end.
Proof.
  intros H. resolve_spelling spelling H;
    (split; [reflexivity|]; split; [discriminate|]; cbn; tauto).
Qed.

(** Every type [parse_type] returns is immutable and has a concrete kind
    other than [Unknown]; integer types have one of the five widths, float
    types are signed and 32 or 64 bits wide, and the other kinds carry width
    0 and no sign. *)
Theorem parse_type_result_shape (spelling : string) (t : TypeInfo) :
  parse_type spelling = inr t ->
  is_mutable t = false
  /\ kind t <> TypeKind.Unknown
  /\ match kind t with
     | TypeKind.Int => In (width t) [8; 16; 32; 64; 128]%Z
     | TypeKind.Float => In (width t) [32; 64]%Z /\ is_signed t = true
     | _ => width t = 0%Z /\ is_signed t = false
     end.
Proof. exact (parse_type_shape spelling t). Qed.

Lemma parse_type_result_shape_witness :
  parse_type "u64" = inr (mkTypeInfo TypeKind.Int 64 false false)
  /\ is_mutable (mkTypeInfo TypeKind.Int 64 false false) = false
  /\ In 64%Z [8; 16; 32; 64; 128]%Z.
Proof.
  split; [reflexivity|].
  destruct (parse_type_result_shape "u64"
              (mkTypeInfo TypeKind.Int 64 false false) eq_refl)
    as (Hm & _ & Hw).
  split; [exact Hm | exact Hw].
Defined.

(** Two spellings resolve to the same type only if they are the same
    spelling, apart from the one alias: "str" and "string". *)
Theorem parse_type_alias_only (a b : string) (t : TypeInfo) :
  parse_type a = inr t ->
  parse_type b = inr t ->
  a = b \/ (a = "str" /\ b = "string") \/ (a = "string" /\ b = "str").
Proof.
  intros Ha Hb. resolve_spelling a Ha;
    (revert Hb; unfold parse_type;
     repeat (next_spelling b;
             [subst b; intros Hb; first [discriminate Hb | tauto] | ]);
     discriminate).
Qed.

Lemma parse_type_alias_only_witness :
  "str" = "string" \/ ("str" = "str" /\ "string" = "string")
  \/ ("str" = "string" /\ "string" = "str").
Proof.
  apply (parse_type_alias_only "str" "string"
           (mkTypeInfo TypeKind.String 0 false false)); reflexivity.
Defined.

(** Between a resolved annotation other than "auto" and any resolved
    type, [types_compatible] is exactly [operator==]: no widening, no
    change of sign, no conversion between kinds. *)
Theorem resolved_types_compatible_iff_equal (a b : string) (ta tb : TypeInfo) :
  parse_type a = inr ta ->
  parse_type b = inr tb ->
  kind ta <> TypeKind.Auto ->
  types_compatible ta tb = TypeInfo_eq ta tb.
Proof.
  intros Ha Hb Hk.
  destruct (parse_type_shape a ta Ha) as (_ & _ & Sa).
  destruct (parse_type_shape b tb Hb) as (_ & _ & Sb).
  apply eq_true_iff_eq. rewrite types_compatible_spec, TypeInfo_eq_fields.
  split.
  - intros [Hauto | (Hkind & Hw)]; [contradiction|].
    split; [exact Hkind|]. rewrite <- Hkind in Sb.
    destruct (kind ta) eqn:K;
      first [ apply Hw; auto; fail
            | destruct Sa as [-> ->], Sb as [-> ->]; split; reflexivity ].
  - intros (Hkind & Hw & Hs). right. auto.
Qed.

Lemma resolved_types_compatible_iff_equal_witness :
  types_compatible i32_type (mkTypeInfo TypeKind.Int 64 true false)
  = TypeInfo_eq i32_type (mkTypeInfo TypeKind.Int 64 true false)
  /\ types_compatible i32_type (mkTypeInfo TypeKind.Int 64 true false) = false.
Proof.
  split; [|reflexivity].
  apply (resolved_types_compatible_iff_equal "i32" "i64");
    [reflexivity | reflexivity | discriminate].
Defined.

(** ** Scopes and lookup *)

Lemma with_scope_stack_same (s : SemanticAnalyzer) :
  with_scope_stack (scope_stack s) s = s.
Proof. destruct s. reflexivity. Qed.

Lemma with_scope_stack_twice (st st' : list (gmap string Symbol))
    (s : SemanticAnalyzer) :
  with_scope_stack st (with_scope_stack st' s) = with_scope_stack st s.
Proof. reflexivity. Qed.

(** [find_symbol] returns the binding of the innermost scope that binds
    the name: it finds [sym] exactly when some scope binds the name to
    [sym] and no scope pushed after it binds the name at all; it returns
    null exactly when no scope on the stack binds the name. *)
Theorem find_symbol_first_match (scopes : list (gmap string Symbol))
    (x : string) :
  (forall sym,
     find_in scopes x = Some sym <->
     exists i scope,
       scopes !! i = Some scope /\ scope !! x = Some sym
       /\ forall j inner, j < i -> scopes !! j = Some inner -> inner !! x = None)
  /\ (find_in scopes x = None <->
      Forall (fun scope => scope !! x = None) scopes).
Proof.
  induction scopes as [|scope outer [IHsome IHnone]].
  - split.
    + intros sym. split; [discriminate|]. intros (i & sc & H & _).
      rewrite lookup_nil in H. discriminate.
    + split; [constructor | reflexivity].
  - cbn [find_in]. destruct (scope !! x) as [y|] eqn:E; split.
    + intros sym. split.
      * intros [= <-]. exists 0, scope. split; [reflexivity|].
        split; [exact E|]. intros j inner Hj. lia.
      * intros ([|i] & sc & Hi & Hx & Hfirst).
        -- cbn in Hi. injection Hi as <-. congruence.
        -- specialize (Hfirst 0 scope ltac:(lia) eq_refl). congruence.
    + split; [discriminate|]. intros H. inversion H; congruence.
    + intros sym. rewrite IHsome. split.
      * intros (i & sc & Hi & Hx & Hfirst). exists (S i), sc.
        split; [exact Hi|]. split; [exact Hx|].
        intros [|j] inner Hj Hl.
        -- cbn in Hl. injection Hl as <-. exact E.
        -- apply (Hfirst j inner); [lia | exact Hl].
      * intros ([|i] & sc & Hi & Hx & Hfirst).
        -- cbn in Hi. injection Hi as <-. congruence.
        -- exists i, sc. split; [exact Hi|]. split; [exact Hx|].
           intros j inner Hj Hl. apply (Hfirst (S j) inner); [lia | exact Hl].
    + rewrite IHnone. split.
      * intros H. constructor; assumption.
      * intros H. inversion H; assumption.
Qed.

Section ScopedDeclaration.

Variable u : TypeInfo.

(** Entering a scope and leaving it again gives back the analyzer state
    unchanged, also when a (valid) declaration was made in between: the
    symbol declared in the scope is gone with it. *)
Theorem scoped_declaration_is_forgotten (k : DeclKind) (d : Declaration)
    (s : SemanticAnalyzer) :
  otherwise_valid k d = true ->
  (enter_scope ;; exit_scope) s = Returns tt s
  /\ (enter_scope ;; visit u (Some (decl_node k d)) ;; exit_scope) s
     = Returns tt s.
Proof.
  intros Hvalid. split.
  - unfold bind, enter_scope, exit_scope. destruct s. reflexivity.
  - destruct (otherwise_valid_outcome u k d Hvalid) as (sym & Ho & _).
    unfold bind at 1, enter_scope. unfold bind. cbn [visit].
    rewrite (visit_declaration_fresh u k d
               (with_scope_stack (∅ :: scope_stack s) s) ∅ (scope_stack s)
               eq_refl (lookup_empty _)), Ho.
    unfold exit_scope. destruct s. reflexivity.
Qed.

End ScopedDeclaration.

Lemma scoped_declaration_is_forgotten_witness :
  (enter_scope ;; visit zeroed (Some (decl_node Const let_f)) ;; exit_scope)
    inside_f_after_x
  = Returns tt inside_f_after_x.
Proof.
  apply (scoped_declaration_is_forgotten zeroed Const let_f inside_f_after_x).
  reflexivity.
Defined.

(** ** Parameters *)

Lemma visit_parameter_fresh (p : ParameterNode) (t : TypeInfo)
    (s : SemanticAnalyzer) (top : gmap string Symbol)
    (rest : list (gmap string Symbol)) :
  scope_stack s = top :: rest ->
  parse_type (param_type p) = inr t ->
  top !! param_name p = None ->
  visit_parameter p s
  = Returns tt
      (with_scope_stack (<[param_name p := param_symbol p t]> top :: rest) s).
Proof.
  intros Hs Ht Hfresh. unfold visit_parameter, bind, back_count, back_assign.
  rewrite Ht. cbn [lift ret]. rewrite Hs.
  rewrite bool_decide_eq_false_2 by (rewrite Hfresh; apply is_Some_None).
  rewrite Hs. reflexivity.
Qed.

Lemma visit_parameter_taken (p : ParameterNode) (t : TypeInfo)
    (s : SemanticAnalyzer) (top : gmap string Symbol)
    (rest : list (gmap string Symbol)) :
  scope_stack s = top :: rest ->
  parse_type (param_type p) = inr t ->
  is_Some (top !! param_name p) ->
  visit_parameter p s
  = Throws (SemanticError
              ("Duplicate parameter name '" ++ param_name p ++ "'")
              (param_line p)) s.
Proof.
  intros Hs Ht Htaken. unfold visit_parameter, bind, back_count.
  rewrite Ht. cbn [lift ret]. rewrite Hs.
  rewrite bool_decide_eq_true_2 by exact Htaken. reflexivity.
Qed.

Lemma parameter_loop_registers (parameters : list ParameterNode)
    (s : SemanticAnalyzer) (top : gmap string Symbol)
    (rest : list (gmap string Symbol)) :
  scope_stack s = top :: rest ->
  NoDup (map param_name parameters) ->
  Forall (fun p => top !! param_name p = None
                   /\ In (param_type p) catalog_spellings) parameters ->
  exists top',
    for_each visit_parameter parameters s
    = Returns tt (with_scope_stack (top' :: rest) s)
    /\ top ⊆ top'
    /\ (forall p, In p parameters ->
          exists t, parse_type (param_type p) = inr t
                    /\ top' !! param_name p = Some (param_symbol p t))
    /\ (forall x, ~ In x (map param_name parameters) -> top' !! x = top !! x).
Proof.
  revert s top. induction parameters as [|p ps IH]; intros s top Hs Hnd Hall.
  - exists top. rewrite for_each_nil. unfold ret. rewrite <- Hs.
    rewrite with_scope_stack_same. split; [reflexivity|].
    split; [reflexivity|]. split; [intros p []|reflexivity].
  - apply NoDup_cons in Hnd as [Hnotin Hnd].
    apply Forall_cons in Hall as [[Hfresh Hknown] Hall].
    destruct (parse_type_known _ Hknown) as [t Ht].
    rewrite for_each_cons. unfold bind.
    rewrite (visit_parameter_fresh p t s top rest Hs Ht Hfresh).
    destruct (IH (with_scope_stack
                    (<[param_name p := param_symbol p t]> top :: rest) s)
                 (<[param_name p := param_symbol p t]> top))
      as (top' & Hrun & Hsub & Hbound & Hother).
    + reflexivity.
    + exact Hnd.
    + apply Forall_forall. intros q Hq. rewrite Forall_forall in Hall.
      destruct (Hall q Hq) as [Hqf Hqk]. split; [|exact Hqk].
      rewrite lookup_insert_ne; [exact Hqf|].
      intros Heq. apply Hnotin. rewrite Heq.
      apply list_elem_of_In, in_map, list_elem_of_In, Hq.
    + exists top'. rewrite Hrun. split; [reflexivity|].
      split; [|split].
      * etransitivity; [|exact Hsub]. apply insert_subseteq. exact Hfresh.
      * intros q [<- | Hq]; [|apply Hbound; exact Hq].
        exists t. split; [exact Ht|].
        rewrite Hother; [apply lookup_insert_eq|].
        intros Hin. apply Hnotin. apply list_elem_of_In. exact Hin.
      * intros x Hx. rewrite Hother by (intros Hin; apply Hx; right; exact Hin).
        apply lookup_insert_ne. intros Heq. apply Hx. left. exact Heq.
Qed.

(** Parameters with pairwise distinct names, none of them bound in the
    current scope yet, and types of the catalog are all registered: the
    loop over them returns normally, every parameter is bound in the
    current scope to an initialized variable symbol of its resolved type
    and line, the bindings the scope had are kept, and no other name is
    bound. *)
Theorem parameters_are_registered (parameters : list ParameterNode)
    (s : SemanticAnalyzer) (top : gmap string Symbol)
    (rest : list (gmap string Symbol)) :
  scope_stack s = top :: rest ->
  NoDup (map param_name parameters) ->
  Forall (fun p => top !! param_name p = None
                   /\ In (param_type p) catalog_spellings) parameters ->
  exists top',
    for_each visit_parameter parameters s
    = Returns tt (with_scope_stack (top' :: rest) s)
    /\ top ⊆ top'
    /\ (forall p, In p parameters ->
          exists t, parse_type (param_type p) = inr t
                    /\ top' !! param_name p = Some (param_symbol p t))
    /\ (forall x, ~ In x (map param_name parameters) -> top' !! x = top !! x).
Proof. exact (parameter_loop_registers parameters s top rest). Qed.

Lemma parameters_are_registered_witness :
  exists top',
    for_each visit_parameter
      [mkParameter "a" "i32" 1; mkParameter "b" "bool" 1] inside_f
    = Returns tt
        (with_scope_stack
           [top'; {[ "f" := mkSymbol "f" SymbolType.Function bool_type true 1 ]}]
           inside_f)
    /\ top' !! "b" = Some (mkSymbol "b" SymbolType.Variable_ bool_type true 1).
Proof.
  destruct (parameters_are_registered
              [mkParameter "a" "i32" 1; mkParameter "b" "bool" 1] inside_f
              ∅ [ {[ "f" := mkSymbol "f" SymbolType.Function bool_type true 1 ]} ])
    as (top' & Hrun & _ & Hbound & _).
  - reflexivity.
  - repeat constructor; vm_compute; intros H; inversion H; subst;
      match goal with H' : _ ∈ _ |- _ => inversion H' end.
  - repeat constructor; vm_compute; tauto.
  - exists top'. split; [exact Hrun|].
    destruct (Hbound (mkParameter "b" "bool" 1)) as (t & Ht & Hb);
      [right; left; reflexivity|].
    injection Ht as <-. exact Hb.
Defined.



(** ** What a visit leaves of the bindings it found *)

Lemma scope_kept_trans (a b c : list (gmap string Symbol)) :
  scope_kept a b -> scope_kept b c -> scope_kept a c.
Proof.
  intros (cur & outer & cur' & -> & -> & Hsub)
         (cur1 & outer1 & cur2 & [= <- <-] & -> & Hsub').
  exists cur, outer, cur2. split; [reflexivity|]. split; [reflexivity|].
  etransitivity; eassumption.
Qed.

Lemma scope_kept_then_below (a b c : list (gmap string Symbol)) :
  scope_kept a b -> scope_kept_below b c -> scope_kept_below a c.
Proof.
  intros (cur & outer & cur' & -> & -> & Hsub)
         (cur1 & outer1 & cur2 & inner & [= <- <-] & -> & Hsub').
  exists cur, outer, cur2, inner. split; [reflexivity|]. split; [reflexivity|].
  etransitivity; eassumption.
Qed.

Lemma scope_kept_refl (cur : gmap string Symbol)
    (outer : list (gmap string Symbol)) :
  scope_kept (cur :: outer) (cur :: outer).
Proof. exists cur, outer, cur. auto. Qed.

Lemma scope_kept_below_refl (cur : gmap string Symbol)
    (outer : list (gmap string Symbol)) :
  scope_kept_below (cur :: outer) (cur :: outer).
Proof. exists cur, outer, cur, []. auto. Qed.

Lemma scope_kept_insert (cur : gmap string Symbol)
    (outer : list (gmap string Symbol)) (x : string) (sym : Symbol) :
  cur !! x = None ->
  scope_kept (cur :: outer) (<[x := sym]> cur :: outer).
Proof.
  intros H. exists cur, outer, (<[x := sym]> cur).
  split; [reflexivity|]. split; [reflexivity|]. apply insert_subseteq, H.
Qed.

Lemma frames_bind {A B} (m : M A) (k : A -> M B) :
  frames m -> (forall a, frames (k a)) -> frames (bind m k).
Proof.
  intros Hm Hk s Hs. specialize (Hm s Hs). unfold bind.
  destruct (m s) as [a s1|e s1|]; cbn in *; [|exact Hm|exact Hm].
  destruct Hm as [Hkept Htbl].
  assert (Hs1 : scope_stack s1 <> []).
  { destruct Hkept as (? & ? & ? & _ & -> & _). discriminate. }
  specialize (Hk a s1 Hs1).
  destruct (k a s1) as [b s2|e s2|]; cbn in *; [| |exact Hk];
    destruct Hk as [Hk' Htbl']; (split; [|congruence]).
  - eapply scope_kept_trans; eassumption.
  - eapply scope_kept_then_below; eassumption.
Qed.

Lemma frames_for_each {A} (f : A -> M unit) (l : list A) :
  Forall (fun x => frames (f x)) l -> frames (for_each f l).
Proof.
  induction 1 as [|x l Hx _ IH].
  - intros s Hs. cbn. destruct (scope_stack s) as [|cur outer]; [contradiction|].
    split; [apply scope_kept_refl | reflexivity].
  - rewrite for_each_cons. apply frames_bind; [exact Hx | intros _; exact IH].
Qed.

Lemma frames_visit_parameter (param : ParameterNode) :
  frames (visit_parameter param).
Proof.
  intros s Hs. destruct (scope_stack s) as [|top rest] eqn:Es; [contradiction|].
  destruct (parse_type (param_type param)) as [e|t] eqn:Et.
  - unfold visit_parameter, bind. rewrite Et. cbn. rewrite Es.
    split; [apply scope_kept_below_refl | reflexivity].
  - destruct (top !! param_name param) as [old|] eqn:El.
    + rewrite (visit_parameter_taken param t s top rest Es Et)
        by (rewrite El; eauto).
      cbn. rewrite Es. split; [apply scope_kept_below_refl | reflexivity].
    + rewrite (visit_parameter_fresh param t s top rest Es Et El).
      cbn. rewrite Es. split; [apply scope_kept_insert, El | reflexivity].
Qed.

Lemma frames_visit_declaration (u : TypeInfo) (k : DeclKind) (d : Declaration) :
  frames (visit_node u (decl_node k d)).
Proof.
  intros s Hs. destruct (scope_stack s) as [|cur outer] eqn:Es; [contradiction|].
  destruct (cur !! decl_name d) as [old|] eqn:Ec.
  - rewrite (visit_declaration_duplicate u k d s cur outer Es)
      by (rewrite Ec; eauto).
    cbn. rewrite Es. split; [apply scope_kept_below_refl | reflexivity].
  - rewrite (visit_declaration_fresh u k d s cur outer Es Ec).
    destruct (declaration_outcome u k d) as [e|sym]; cbn; rewrite Es.
    + split; [apply scope_kept_below_refl | reflexivity].
    + split; [apply scope_kept_insert, Ec | reflexivity].
Qed.

Lemma find_in_none_head (cur : gmap string Symbol)
    (outer : list (gmap string Symbol)) (x : string) :
  find_in (cur :: outer) x = None -> cur !! x = None.
Proof. cbn [find_in]. destruct (cur !! x); [discriminate | reflexivity]. Qed.

Lemma frames_visit_function (visit : option ASTNode -> M unit)
    (fname return_type : string) (parameters : list ParameterNode)
    (body : list (option ASTNode)) (line : Z) :
  Forall (fun stmt => frames (visit stmt)) body ->
  frames (visit_function visit fname return_type parameters body line).
Proof.
  intros Hbody s Hs. rewrite visit_function_unfold.
  destruct (scope_stack s) as [|cur outer] eqn:Es; [contradiction|].
  destruct (find_in (cur :: outer) fname) as [old|] eqn:Ef.
  { cbn. rewrite Es. split; [apply scope_kept_below_refl | reflexivity]. }
  destruct (parse_type return_type) as [e|t] eqn:Ep.
  { cbn. rewrite Es. split; [apply scope_kept_below_refl | reflexivity]. }
  apply find_in_none_head in Ef.
  set (fsym := mkSymbol fname SymbolType.Function t true line).
  set (s0 := function_entry_state fname t line cur outer s).
  assert (Hparams : frames (for_each visit_parameter parameters)).
  { apply frames_for_each, Forall_forall. intros p _.
    apply frames_visit_parameter. }
  specialize (Hparams s0 ltac:(discriminate)).
  destruct (for_each visit_parameter parameters s0) as [[] s1|e s1|];
    unfold s0 in Hparams; cbn in Hparams; [| |contradiction].
  2:{ destruct Hparams as [(c0 & o0 & c1 & inner & Heq & Hst & _) Htbl].
      injection Heq as Hc Ho. subst c0 o0.
      cbn. rewrite Es, Hst. split; [|exact Htbl].
      exists cur, outer, (<[fname := fsym]> cur), (inner ++ [c1])%list.
      split; [reflexivity|]. rewrite <- app_assoc.
      split; [reflexivity | apply insert_subseteq, Ef]. }
  destruct Hparams as [(c0 & o0 & c1 & Heq & Hst1 & _) Htbl1].
  injection Heq as Hc Ho. subst c0 o0.
  pose proof (frames_for_each visit body Hbody s1) as Hstmts.
  rewrite Hst1 in Hstmts. specialize (Hstmts ltac:(discriminate)).
  destruct (for_each visit body s1) as [[] s2|e s2|];
    cbn in Hstmts; [| |contradiction].
  2:{ destruct Hstmts as [(c0 & o0 & c2 & inner & Heq & Hst & _) Htbl].
      rewrite Hst1 in Heq. injection Heq as Hc Ho. subst c0 o0.
      cbn. rewrite Es, Hst. split; [|congruence].
      exists cur, outer, (<[fname := fsym]> cur), (inner ++ [c2])%list.
      split; [reflexivity|]. rewrite <- app_assoc.
      split; [reflexivity | apply insert_subseteq, Ef]. }
  destruct Hstmts as [(c0 & o0 & c2 & Heq & Hst2 & _) Htbl2].
  rewrite Hst1 in Heq. injection Heq as Hc Ho. subst c0 o0.
  unfold exit_scope. rewrite Hst2. cbn. rewrite Es.
  split; [apply scope_kept_insert, Ef | congruence].
Qed.

Lemma frames_visit_node (u : TypeInfo) (n : ASTNode) :
  well_tagged n = true -> frames (visit_node u n).
Proof.
  induction n as [fname return_type parameters body line IH|d|d|d|tag line]
    using ASTNode_tree_ind; intros Hw.
  - cbn [visit_node]. apply frames_visit_function.
    cbn [well_tagged] in Hw. rewrite forallb_forall in Hw.
    rewrite Forall_forall in IH. apply Forall_forall. intros [child|] Hin.
    + apply (IH _ Hin). apply (Hw (Some child)), list_elem_of_In, Hin.
    + intros s Hs. cbn.
      destruct (scope_stack s) as [|cur outer]; [contradiction|].
      split; [apply scope_kept_refl | reflexivity].
  - apply (frames_visit_declaration u Let d).
  - apply (frames_visit_declaration u Var d).
  - apply (frames_visit_declaration u Const d).
  - cbn in Hw. apply negb_true_iff in Hw. intros s Hs.
    cbn [visit_node]. rewrite Hw. cbn.
    destruct (scope_stack s) as [|cur outer]; [contradiction|].
    split; [apply scope_kept_refl | reflexivity].
Qed.

(** [analyze] never removes or overwrites a binding it finds.  Started on
    a stack [cur :: outer], it leaves the outer scopes exactly as they were
    and the scope [cur] with all its bindings (possibly more); after a
    normal return that scope is again the innermost one, after a throw the
    scopes that were left pushed lie on top of it.  The [symbol_table]
    member is never written. *)
Theorem analysis_keeps_bindings (u : TypeInfo) (root : option ASTNode)
    (s : SemanticAnalyzer) (cur : gmap string Symbol)
    (outer : list (gmap string Symbol)) :
  well_tagged_root root = true ->
  scope_stack s = cur :: outer ->
  match analyze u root s with
  | Returns _ s' =>
      exists cur', scope_stack s' = cur' :: outer /\ cur ⊆ cur'
                   /\ symbol_table s' = symbol_table s
  | Throws _ s' =>
      exists inner cur',
        scope_stack s' = (inner ++ cur' :: outer)%list /\ cur ⊆ cur'
        /\ symbol_table s' = symbol_table s
  | Undefined => False
  end.
Proof.
  intros Hw Hs. destruct root as [n|].
  - cbn [analyze visit well_tagged_root] in *.
    pose proof (frames_visit_node u n Hw s) as Hf. rewrite Hs in Hf.
    specialize (Hf ltac:(discriminate)).
    destruct (visit_node u n s) as [[] s'|e s'|]; cbn in Hf; [| |exact Hf].
    + destruct Hf as [(c & o & c' & Heq & -> & Hsub) Htbl].
      rewrite Hs in Heq. injection Heq as Hc Ho. subst c o. eauto.
    + destruct Hf as [(c & o & c' & inner & Heq & -> & Hsub) Htbl].
      rewrite Hs in Heq. injection Heq as Hc Ho. subst c o. eauto 6.
  - cbn. exists cur. auto.
Qed.

Lemma analysis_keeps_bindings_witness :
  match analyze zeroed (Some missing_initializer_program) inside_f_after_x with
  | Returns _ s' =>
      exists cur',
        scope_stack s'
        = [cur'; {[ "f" := mkSymbol "f" SymbolType.Function bool_type true 1 ]}]
        /\ {[ "x" := mkSymbol "x" SymbolType.Variable_
                       (mkTypeInfo TypeKind.Auto 0 false false) false 2 ]}
           ⊆ cur'
        /\ symbol_table s' = symbol_table inside_f_after_x
  | Throws _ s' =>
      exists inner cur',
        scope_stack s'
        = (inner ++ [cur'; {[ "f" := mkSymbol "f" SymbolType.Function
                                      bool_type true 1 ]}])%list
        /\ {[ "x" := mkSymbol "x" SymbolType.Variable_
                       (mkTypeInfo TypeKind.Auto 0 false false) false 2 ]}
           ⊆ cur'
        /\ symbol_table s' = symbol_table inside_f_after_x
  | Undefined => False
  end.
Proof.
  apply (analysis_keeps_bindings zeroed (Some missing_initializer_program)
           inside_f_after_x); reflexivity.
Defined.

(** ** A function node, from entry to exit *)

Lemma frames_body (u : TypeInfo) (body : list (option ASTNode)) :
  forallb (fun stmt => match stmt with
                       | None => true
                       | Some child => well_tagged child
                       end) body = true ->
  Forall (fun stmt => frames (visit u stmt)) body.
Proof.
  intros Hw. rewrite forallb_forall in Hw. apply Forall_forall.
  intros [child|] Hin.
  - apply frames_visit_node. apply (Hw (Some child)), list_elem_of_In, Hin.
  - intros s Hs. cbn.
    destruct (scope_stack s) as [|cur outer]; [contradiction|].
    split; [apply scope_kept_refl | reflexivity].
Qed.

(** A loop over parameters or statements that returns normally from a
    stack [top :: rest] leaves [rest] in place under one scope. *)
Lemma framed_loop_returns {A} (f : A -> M unit) (l : list A)
    (s s' : SemanticAnalyzer) (top : gmap string Symbol)
    (rest : list (gmap string Symbol)) :
  Forall (fun x => frames (f x)) l ->
  scope_stack s = top :: rest ->
  for_each f l s = Returns tt s' ->
  exists top', scope_stack s' = top' :: rest
               /\ symbol_table s' = symbol_table s.
Proof.
  intros Hl Hs Hrun.
  pose proof (frames_for_each f l Hl s) as Hf. rewrite Hrun in Hf.
  destruct Hf as [(c & o & c' & Heq & Hst & _) Htbl];
    [rewrite Hs; discriminate|].
  rewrite Hs in Heq. injection Heq as Hc Ho. subst c o. eauto.
Qed.

Lemma frames_parameters (parameters : list ParameterNode) :
  Forall (fun p => frames (visit_parameter p)) parameters.
Proof. apply Forall_forall. intros p _. apply frames_visit_parameter. Qed.

Lemma function_exit_state (u : TypeInfo)
    (fname return_type : string) (parameters : list ParameterNode)
    (body : list (option ASTNode)) (line : Z) (s s' : SemanticAnalyzer) :
  well_tagged (FunctionNode fname return_type parameters body line) = true ->
  visit u (Some (FunctionNode fname return_type parameters body line)) s
  = Returns tt s' ->
  exists cur outer t,
    scope_stack s = cur :: outer
    /\ find_in (scope_stack s) fname = None
    /\ parse_type return_type = inr t
    /\ scope_stack s'
       = <[fname := mkSymbol fname SymbolType.Function t true line]> cur
         :: outer
    /\ find_in (scope_stack s') fname
       = Some (mkSymbol fname SymbolType.Function t true line)
    /\ (forall x, x <> fname ->
          find_in (scope_stack s') x = find_in (scope_stack s) x)
    /\ in_function s' = false
    /\ symbol_table s' = symbol_table s.
Proof.
  intros Hw H. cbn [visit visit_node well_tagged] in *.
  rewrite visit_function_unfold in H.
  destruct (find_in (scope_stack s) fname) as [old|] eqn:Ef; [discriminate|].
  destruct (parse_type return_type) as [e|t]; [discriminate|].
  destruct (scope_stack s) as [|cur outer] eqn:Es; [discriminate|].
  destruct (for_each visit_parameter parameters _) as [[] s1|e s1|] eqn:Ep;
    [|discriminate|discriminate].
  destruct (framed_loop_returns visit_parameter parameters
              (function_entry_state fname t line cur outer s) s1 ∅
              (<[fname := mkSymbol fname SymbolType.Function t true line]> cur
               :: outer)
              (frames_parameters parameters) eq_refl Ep)
    as (c1 & Hst1 & Htbl1).
  destruct (for_each _ body s1) as [[] s2|e s2|] eqn:Eb;
    [|discriminate|discriminate].
  destruct (framed_loop_returns _ _ _ _ _ _ (frames_body u body Hw) Hst1 Eb)
    as (c2 & Hst2 & Htbl2).
  unfold exit_scope in H. rewrite Hst2 in H. injection H as <-.
  exists cur, outer, t. cbn.
  split; [reflexivity|]. split; [reflexivity|]. split; [reflexivity|].
  split; [reflexivity|]. split; [rewrite lookup_insert_eq; reflexivity|].
  split; [|split; [reflexivity | rewrite Htbl2, Htbl1; reflexivity]].
  intros x Hx. rewrite lookup_insert_ne by congruence. reflexivity.
Qed.

(** When the visit of a function node returns normally, all it has left
    in the analyzer is the function's own symbol: the scope stack is the
    one before the call with that symbol added to the current scope, so no
    parameter and no name declared in the body can be looked up any more
    and every other name resolves as before; the [symbol_table] member is
    untouched; and [in_function] is false, whatever it was before, also
    when the node sits inside the body of another function. *)
Theorem function_leaves_only_its_symbol (u : TypeInfo)
    (fname return_type : string) (parameters : list ParameterNode)
    (body : list (option ASTNode)) (line : Z) (s s' : SemanticAnalyzer) :
  well_tagged (FunctionNode fname return_type parameters body line) = true ->
  visit u (Some (FunctionNode fname return_type parameters body line)) s
  = Returns tt s' ->
  exists cur outer t,
    scope_stack s = cur :: outer
    /\ find_in (scope_stack s) fname = None
    /\ parse_type return_type = inr t
    /\ scope_stack s'
       = <[fname := mkSymbol fname SymbolType.Function t true line]> cur
         :: outer
    /\ find_in (scope_stack s') fname
       = Some (mkSymbol fname SymbolType.Function t true line)
    /\ (forall x, x <> fname ->
          find_in (scope_stack s') x = find_in (scope_stack s) x)
    /\ in_function s' = false
    /\ symbol_table s' = symbol_table s.
Proof. exact (function_exit_state u fname return_type parameters body line s s'). Qed.

Lemma function_leaves_only_its_symbol_witness :
  exists s',
    visit zeroed
      (Some (FunctionNode "g" "u8" [mkParameter "n" "i32" 3]
               [Some (LetDeclarationNode (mkDeclaration "y" None None 4))] 3))
      inside_f
    = Returns tt s'
    /\ scope_stack s'
       = [ <["g" := mkSymbol "g" SymbolType.Function
                      (mkTypeInfo TypeKind.Int 8 false false) true 3]> ∅;
           {[ "f" := mkSymbol "f" SymbolType.Function bool_type true 1 ]} ]
    /\ find_in (scope_stack s') "n" = None
    /\ in_function inside_f = true
    /\ in_function s' = false.
Proof.
  eexists. split; [reflexivity|].
  destruct (function_leaves_only_its_symbol zeroed "g" "u8"
              [mkParameter "n" "i32" 3]
              [Some (LetDeclarationNode (mkDeclaration "y" None None 4))] 3
              inside_f _ eq_refl eq_refl)
    as (cur & outer & t & Hs & _ & Ht & Hs' & _ & Hother & Hin & _).
  injection Hs as <- <-. injection Ht as <-.
  split; [exact Hs'|]. split; [|split; [reflexivity | exact Hin]].
  rewrite (Hother "n") by discriminate. reflexivity.
Defined.

(** The first failure ends the analysis of a function: if the visit of a
    function node throws, the visit of the same node with further
    statements appended to its body throws the same exception and leaves
    the same state.  Nothing after the failing statement is examined. *)
Theorem first_error_wins (u : TypeInfo) (fname return_type : string)
    (parameters : list ParameterNode) (body more : list (option ASTNode))
    (line : Z) (s s' : SemanticAnalyzer) (e : Exception) :
  well_tagged (FunctionNode fname return_type parameters body line) = true ->
  visit u (Some (FunctionNode fname return_type parameters body line)) s
  = Throws e s' ->
  visit u (Some (FunctionNode fname return_type parameters
                              (body ++ more) line)) s
  = Throws e s'.
Proof.
  intros Hw H. cbn [visit visit_node well_tagged] in *.
  rewrite visit_function_unfold in *.
  destruct (find_in (scope_stack s) fname) as [old|]; [exact H|].
  destruct (parse_type return_type) as [e0|t]; [exact H|].
  destruct (scope_stack s) as [|cur outer] eqn:Es; [discriminate|].
  destruct (for_each visit_parameter parameters _) as [[] s1|e1 s1|] eqn:Ep;
    [|exact H|discriminate].
  destruct (framed_loop_returns visit_parameter parameters
              (function_entry_state fname t line cur outer s) s1 ∅
              (<[fname := mkSymbol fname SymbolType.Function t true line]> cur
               :: outer)
              (frames_parameters parameters) eq_refl Ep)
    as (c1 & Hst1 & _).
  rewrite for_each_app. unfold bind at 1.
  destruct (for_each _ body s1) as [[] s2|e2 s2|] eqn:Eb;
    [|exact H|discriminate].
  destruct (framed_loop_returns _ _ _ _ _ _ (frames_body u body Hw) Hst1 Eb)
    as (c2 & Hst2 & _).
  unfold exit_scope in H. rewrite Hst2 in H. discriminate H.
Qed.

Lemma first_error_wins_witness :
  visit zeroed
    (Some (FunctionNode "f" "i32" []
             ([Some (VarDeclarationNode (mkDeclaration "y" None None 2))]
              ++ [Some (LetDeclarationNode (mkDeclaration "y" None None 3));
                  Some (OtherNode NodeKind.Return 4)])
             1))
    (new_analyzer zeroed)
  = Throws (SemanticError "var declaration requires initializer" 2)
           (function_entry_state "f" i32_type 1 ∅ [] (new_analyzer zeroed)).
Proof.
  apply (first_error_wins zeroed "f" "i32" []
           [Some (VarDeclarationNode (mkDeclaration "y" None None 2))]);
    reflexivity.
Defined.

(** ** What a declaration registers *)

Lemma visit_declaration_needs_scope (u : TypeInfo) (k : DeclKind)
    (d : Declaration) (s : SemanticAnalyzer) :
  scope_stack s = [] -> visit_node u (decl_node k d) s = Undefined.
Proof.
  intros Hs.
  destruct k; cbn [decl_node visit_node];
    unfold visit_let_decl, visit_var_decl, visit_const_decl, bind, back_count;
    rewrite Hs; reflexivity.
Qed.

(** Whenever a [let], [var] or [const] declaration is accepted, its name
    was not bound in the current scope, nothing but that scope changes, and
    the symbol stored under the name has the declaration's name and line,
    is a constant for [const] and a variable otherwise, is mutable for
    [var] only, and is marked initialized exactly when there is an
    initializer.  The type stored for an initialized declaration is always
    of kind [Unknown] with width 0: the one type the expression resolver
    produces. *)
Theorem declared_symbol_fields (u : TypeInfo) (k : DeclKind) (d : Declaration)
    (s s' : SemanticAnalyzer) :
  visit u (Some (decl_node k d)) s = Returns tt s' ->
  exists cur outer sym,
    scope_stack s = cur :: outer
    /\ cur !! decl_name d = None
    /\ s' = with_scope_stack (<[decl_name d := sym]> cur :: outer) s
    /\ name sym = decl_name d
    /\ declaration_line sym = decl_line d
    /\ symbol_type sym
       = match k with
         | Const => SymbolType.Constant
         | _ => SymbolType.Variable_
         end
    /\ is_mutable (type_info sym) = match k with Var => true | _ => false end
    /\ is_initialized sym
       = match initializer d with Some _ => true | None => false end
    /\ (is_initialized sym = true ->
        kind (type_info sym) = TypeKind.Unknown
        /\ width (type_info sym) = 0%Z
        /\ is_signed (type_info sym) = false).
Proof.
  cbn [visit]. intros H.
  destruct (scope_stack s) as [|cur outer] eqn:Es.
  { rewrite (visit_declaration_needs_scope u k d s Es) in H. discriminate H. }
  destruct (cur !! decl_name d) as [old|] eqn:Ec.
  { rewrite (visit_declaration_duplicate u k d s cur outer Es) in H
      by (rewrite Ec; eauto).
    discriminate H. }
  rewrite (visit_declaration_fresh u k d s cur outer Es Ec) in H.
  destruct (declaration_outcome u k d) as [e|sym] eqn:Eo; [discriminate H|].
  injection H as <-. exists cur, outer, sym.
  split; [reflexivity|]. split; [exact Ec|]. split; [reflexivity|].
  unfold declaration_outcome in Eo.
  assert (Hdeclared : forall declared,
            match type_annotation d with
            | Some spelling => parse_type spelling
            | None => inr (set_kind TypeKind.Auto u)
            end = inr declared ->
            kind declared <> TypeKind.Unknown).
  { intros declared. destruct (type_annotation d) as [spelling|].
    - apply parse_type_kind.
    - intros [= <-]. discriminate. }
  destruct (match type_annotation d with
            | Some spelling => parse_type spelling
            | None => inr (set_kind TypeKind.Auto u)
            end) as [e|declared]; [discriminate Eo|].
  specialize (Hdeclared declared eq_refl).
  destruct (initializer d) as [expr|].
  - case_bool_decide as Hauto.
    + injection Eo as <-. destruct k; cbn; repeat split.
    + destruct (types_compatible declared (visit_expression expr)) eqn:Hc;
        cbn [negb] in Eo; [|discriminate Eo].
      exfalso. apply types_compatible_spec in Hc.
      destruct Hc as [Hc | [Hc _]]; [contradiction|].
      apply Hdeclared. rewrite Hc. reflexivity.
  - destruct k; try discriminate Eo. injection Eo as <-.
    cbn. repeat split; discriminate.
Qed.

Lemma declared_symbol_fields_witness :
  exists cur outer sym,
    scope_stack inside_f = cur :: outer
    /\ cur !! "f" = None
    /\ symbol_type sym = SymbolType.Variable_
    /\ is_mutable (type_info sym) = true
    /\ is_initialized sym = true
    /\ kind (type_info sym) = TypeKind.Unknown.
Proof.
  destruct (declared_symbol_fields zeroed Var let_f inside_f
              (with_scope_stack
                 [ <["f" := initialized_symbol Var let_f
                              (visit_expression (IntegerLiteralNode 1))]> ∅;
                   {[ "f" := mkSymbol "f" SymbolType.Function bool_type true 1 ]} ]
                 inside_f)
              eq_refl)
    as (cur & outer & sym & Hs & Hc & _ & _ & _ & Hk & Hm & Hi & Hu).
  exists cur, outer, sym.
  split; [exact Hs|]. split; [exact Hc|]. split; [exact Hk|].
  split; [exact Hm|]. split; [exact Hi|]. apply Hu. exact Hi.
Defined.

Lemma annotated_initializer_is_rejected_witness :
  visit zeroed
    (Some (decl_node Const
             (mkDeclaration "z" (Some "bool") (Some (BoolLiteralNode true)) 3)))
    inside_f_after_x
  = Throws (SemanticError "Type mismatch in const declaration" 3)
           inside_f_after_x.
Proof.
  apply (annotated_initializer_is_rejected zeroed Const
           (mkDeclaration "z" (Some "bool") (Some (BoolLiteralNode true)) 3)
           inside_f_after_x
           {[ "x" := mkSymbol "x" SymbolType.Variable_
                       (mkTypeInfo TypeKind.Auto 0 false false) false 2 ]}
           [ {[ "f" := mkSymbol "f" SymbolType.Function bool_type true 1 ]} ]
           "bool" bool_type (BoolLiteralNode true));
    (reflexivity || discriminate).
Defined.

(** ** Programs that are accepted *)

Lemma declarations_are_registered (u : TypeInfo)
    (decls : list (DeclKind * Declaration)) (s : SemanticAnalyzer)
    (top : gmap string Symbol) (rest : list (gmap string Symbol)) :
  scope_stack s = top :: rest ->
  NoDup (map (fun kd => decl_name (snd kd)) decls) ->
  Forall (fun kd => top !! decl_name (snd kd) = None
                    /\ otherwise_valid (fst kd) (snd kd) = true) decls ->
  exists top',
    for_each (visit u) (map decl_stmt decls) s
    = Returns tt (with_scope_stack (top' :: rest) s).
Proof.
  revert s top. induction decls as [|[k d] decls IH]; intros s top Hs Hnd Hall.
  - exists top. cbn [map]. rewrite for_each_nil. unfold ret.
    rewrite <- Hs, with_scope_stack_same. reflexivity.
  - cbn [map fst snd] in *.
    apply NoDup_cons in Hnd as [Hnotin Hnd].
    apply Forall_cons in Hall as [[Hfresh Hvalid] Hall]. cbn [fst snd] in *.
    destruct (otherwise_valid_outcome u k d Hvalid) as (sym & Ho & _).
    rewrite for_each_cons. unfold bind, decl_stmt at 1. cbn [visit fst snd].
    rewrite (visit_declaration_fresh u k d s top rest Hs Hfresh), Ho.
    destruct (IH (with_scope_stack (<[decl_name d := sym]> top :: rest) s)
                 (<[decl_name d := sym]> top) eq_refl Hnd) as (top' & Hrun).
    + apply Forall_forall. intros [k' d'] Hin. rewrite Forall_forall in Hall.
      destruct (Hall _ Hin) as [Hf Hv]. cbn [fst snd] in *. split; [|exact Hv].
      rewrite lookup_insert_ne; [exact Hf|].
      intros Heq. apply Hnotin. rewrite Heq.
      apply list_elem_of_In.
      apply (in_map (fun kd => decl_name (snd kd)) decls (k', d')).
      apply list_elem_of_In, Hin.
    + exists top'. rewrite Hrun. reflexivity.
Qed.

(** A function is accepted, from any state in which its name is not yet
    visible, when its return type and parameter types are spellings of the
    catalog, its body is a sequence of otherwise valid [let], [var] and
    [const] declarations, and the names of its parameters and declared
    variables are pairwise distinct.  The analyzer is then left with the
    function symbol added to the current scope, the function flag cleared
    and the function's type as the current return type. *)
Theorem flat_function_is_accepted (u : TypeInfo) (fname return_type : string)
    (t : TypeInfo) (parameters : list ParameterNode)
    (decls : list (DeclKind * Declaration)) (line : Z)
    (s : SemanticAnalyzer) (cur : gmap string Symbol)
    (outer : list (gmap string Symbol)) :
  scope_stack s = cur :: outer ->
  find_in (cur :: outer) fname = None ->
  parse_type return_type = inr t ->
  NoDup (map param_name parameters
         ++ map (fun kd => decl_name (snd kd)) decls)%list ->
  Forall (fun p => In (param_type p) catalog_spellings) parameters ->
  Forall (fun kd => otherwise_valid (fst kd) (snd kd) = true) decls ->
  analyze u (Some (FunctionNode fname return_type parameters
                                (map decl_stmt decls) line)) s
  = Returns tt
      {| symbol_table := symbol_table s;
         scope_stack :=
           <[fname := mkSymbol fname SymbolType.Function t true line]> cur
           :: outer;
         current_return_type := t;
         in_function := false |}.
Proof.
  intros Hs Hf Ht Hnd Hps Hds. cbn [analyze visit visit_node].
  rewrite visit_function_unfold, Hs, Hf, Ht.
  apply NoDup_app in Hnd as (Hndp & Hdisj & Hndd).
  destruct (parameter_loop_registers parameters
              (function_entry_state fname t line cur outer s) ∅
              (<[fname := mkSymbol fname SymbolType.Function t true line]> cur
               :: outer) eq_refl Hndp)
    as (top1 & Hrun1 & _ & _ & Hother).
  { eapply Forall_impl; [exact Hps|]. intros p Hp. split; [|exact Hp].
    apply lookup_empty. }
  rewrite Hrun1.
  destruct (declarations_are_registered u decls
              (with_scope_stack
                 (top1 :: <[fname := mkSymbol fname SymbolType.Function t true
                                       line]> cur :: outer)
                 (function_entry_state fname t line cur outer s))
              top1 _ eq_refl Hndd) as (top2 & Hrun2).
  { apply Forall_forall. intros [k d] Hin. rewrite Forall_forall in Hds.
    split; [|apply (Hds _ Hin)]. cbn [snd].
    rewrite Hother; [apply lookup_empty|].
    intros Hp. apply list_elem_of_In in Hp. apply (Hdisj _ Hp).
    apply list_elem_of_In.
    apply (in_map (fun kd => decl_name (snd kd)) decls (k, d)).
    apply list_elem_of_In, Hin. }
  unfold visit in Hrun2. rewrite Hrun2. reflexivity.
Qed.

Lemma flat_function_is_accepted_witness :
  analyze zeroed
    (Some (FunctionNode "area" "u32"
             [mkParameter "w" "u32" 1; mkParameter "h" "u32" 1]
             (map decl_stmt
                [(Let, mkDeclaration "a" None (Some (IdentifierNode "w")) 2);
                 (Var, mkDeclaration "b" (Some "auto")
                         (Some (IntegerLiteralNode 0)) 3);
                 (Let, mkDeclaration "c" (Some "f64") None 4)])
             1))
    (new_analyzer zeroed)
  = Returns tt
      {| symbol_table := ∅;
         scope_stack :=
           [ <["area" := mkSymbol "area" SymbolType.Function
                           (mkTypeInfo TypeKind.Int 32 false false) true 1]> ∅ ];
         current_return_type := mkTypeInfo TypeKind.Int 32 false false;
         in_function := false |}.
Proof.
  apply (flat_function_is_accepted zeroed "area" "u32"
           (mkTypeInfo TypeKind.Int 32 false false)
           [mkParameter "w" "u32" 1; mkParameter "h" "u32" 1]
           [(Let, mkDeclaration "a" None (Some (IdentifierNode "w")) 2);
            (Var, mkDeclaration "b" (Some "auto") (Some (IntegerLiteralNode 0)) 3);
            (Let, mkDeclaration "c" (Some "f64") None 4)]
           1 (new_analyzer zeroed) ∅ []).
  - reflexivity.
  - reflexivity.
  - reflexivity.
  - cbn [map app fst snd decl_name param_name].
    repeat (constructor;
            [intros H; apply list_elem_of_In in H; cbn in H;
             intuition discriminate|]).
    constructor.
  - repeat (constructor; [vm_compute; tauto|]). constructor.
  - repeat (constructor; [reflexivity|]). constructor.
Defined.

(** An analyzer that has accepted a function cannot be handed the same
    function again: the second visit finds the name it registered the
    first time and throws the duplicate function error at the function's
    line, leaving the state as it was. *)
Theorem analyze_twice_is_rejected (u : TypeInfo) (fname return_type : string)
    (parameters : list ParameterNode) (body : list (option ASTNode))
    (line : Z) (s s' : SemanticAnalyzer) :
  well_tagged (FunctionNode fname return_type parameters body line) = true ->
  analyze u (Some (FunctionNode fname return_type parameters body line)) s
  = Returns tt s' ->
  analyze u (Some (FunctionNode fname return_type parameters body line)) s'
  = Throws (SemanticError ("Duplicate function name '" ++ fname ++ "'") line)
           s'.
Proof.
  intros Hw H.
  destruct (function_exit_state u fname return_type parameters body line
              s s' Hw H) as (cur & outer & t & _ & _ & _ & _ & Hfound & _).
  apply visit_function_duplicate. rewrite Hfound. eauto.
Qed.

Lemma analyze_twice_is_rejected_witness :
  exists s',
    analyze zeroed (Some (FunctionNode "f" "bool" [] [] 1)) (new_analyzer zeroed)
    = Returns tt s'
    /\ analyze zeroed (Some (FunctionNode "f" "bool" [] [] 1)) s'
       = Throws (SemanticError "Duplicate function name 'f'" 1) s'.
Proof.
  eexists. split; [reflexivity|].
  apply (analyze_twice_is_rejected zeroed "f" "bool" [] [] 1
           (new_analyzer zeroed)); reflexivity.
Defined.
